(** * TenderAtlas blog build: a shallow embedding of [blog/build.py]

    The development follows the script function by function:
    [parse_metadata], [inline_format], [txt_to_html_content],
    [format_date_hr], [generate_html], [find_first_image] and
    [build_blog].

    Modelling conventions.
    - Text is a [string]; a character is an [ascii].  The script reads its
      inputs as UTF-8, and the model carries text as that byte sequence.
      The character tables of the Python runtime ([str.isspace], the line
      boundaries of [str.splitlines], [str.upper], the regex classes [\s],
      [\d] and [.]) are given for the characters below 128; bytes from 128
      up are ordinary non-space, caseless characters.  A statement that
      rests on these tables is made for the texts on which they are the
      whole of Python's: texts without white space beyond ASCII
      ([ascii_spaces]), headers with ASCII keys ([ascii_keys]).
    - [re.match] and [re.sub] are modelled by a small backtracking matcher
      ([Regex]) with the greedy and lazy quantifiers the script's patterns
      use, tried in the order Python's engine tries them.
    - The [while] loop of [txt_to_html_content] runs on fuel: one unit per
      iteration, [None] when the fuel runs out before the loop exits.
    - The file system is an input value: the directory entries of the blog
      folder in the order [sorted(BLOG_DIR.iterdir())] yields them, and the
      previous content of [posts.json]. *)

From Stdlib Require Import Ascii.
From stdpp Require Import gmap strings list pretty sorting.

(** ** Python string primitives *)

Module Py.

(** The double quote character, and a string holding just it. *)
Definition dquote : ascii := Ascii.ascii_of_nat 34.
Definition dq : string := String dquote "".

Definition LF : ascii := Ascii.ascii_of_nat 10.
Definition CR : ascii := Ascii.ascii_of_nat 13.
Definition nl : string := String LF "".

(** [str.isspace] on one character: TAB, LF, VT, FF, CR, FS, GS, RS, US and
    the space. The regex class [\s] on [str] patterns is the same set.
    These are the characters of ASCII in Python's table; the ones beyond
    ASCII are listed further down, where the texts are named on which this
    table is the whole of it. *)
Definition is_space (c : ascii) : bool :=
  let n := Ascii.nat_of_ascii c in
  ((9 <=? n) && (n <=? 13)) || ((28 <=? n) && (n <=? 32)).

(** The line boundaries of [str.splitlines]: LF, VT, FF, CR, FS, GS, RS.
    Beyond ASCII Python also splits at U+0085, U+2028 and U+2029. *)
Definition is_linebreak (c : ascii) : bool :=
  let n := Ascii.nat_of_ascii c in
  ((10 <=? n) && (n <=? 13)) || ((28 <=? n) && (n <=? 30)).

Definition is_empty (s : string) : bool :=
  match s with EmptyString => true | String _ _ => false end.

Fixpoint lstrip (s : string) : string :=
  match s with
  | String c s' => if is_space c then lstrip s' else s
  | EmptyString => EmptyString
  end.

Fixpoint rstrip (s : string) : string :=
  match s with
  | String c s' =>
      let r := rstrip s' in
      if is_space c && is_empty r then EmptyString else String c r
  | EmptyString => EmptyString
  end.

(** [s.strip()] *)
Definition strip (s : string) : string := rstrip (lstrip s).

(** [s.splitlines()]: [after_cr] remembers that the previous character was
    a CR, so that CR LF counts as one boundary. No empty last line is
    produced after a final boundary. *)
Fixpoint splitlines_from (after_cr : bool) (s : string) : list string :=
  match s with
  | EmptyString => []
  | String c s' =>
      if after_cr && Ascii.eqb c LF then splitlines_from false s'
      else if is_linebreak c then EmptyString :: splitlines_from (Ascii.eqb c CR) s'
      else match splitlines_from false s' with
           | [] => [String c EmptyString]
           | l :: ls => String c l :: ls
           end
  end.

Definition splitlines (s : string) : list string := splitlines_from false s.

(** [s.startswith(p)] *)
Fixpoint startswith (p s : string) : bool :=
  match p, s with
  | EmptyString, _ => true
  | String a p', String b s' => Ascii.eqb a b && startswith p' s'
  | String _ _, EmptyString => false
  end.

(** [s[n:]] *)
Fixpoint drop_chars (n : nat) (s : string) : string :=
  match n, s with
  | S n', String _ s' => drop_chars n' s'
  | _, _ => s
  end.

(** [s[:n]] *)
Fixpoint take_chars (n : nat) (s : string) : string :=
  match n, s with
  | S n', String c s' => String c (take_chars n' s')
  | _, _ => EmptyString
  end.

(** [sub in s] *)
Fixpoint contains (sub s : string) : bool :=
  startswith sub s ||
  match s with
  | String _ s' => contains sub s'
  | EmptyString => false
  end.

(** [s.split(sep, 1)] when [sep in s]: the text before the first occurrence
    of [sep] and the text after it; [None] when [sep] does not occur. *)
Fixpoint split_once (sep s : string) : option (string * string) :=
  if startswith sep s then Some (EmptyString, drop_chars (String.length sep) s)
  else match s with
       | String c s' =>
           match split_once sep s' with
           | Some (a, b) => Some (String c a, b)
           | None => None
           end
       | EmptyString => None
       end.

(** [s.replace(old, "")] for a non-empty [old]: every occurrence, left to
    right, without overlaps; [skip] counts the characters of the occurrence
    being removed that are still ahead. *)
Fixpoint remove_all_from (old : string) (skip : nat) (s : string) : string :=
  match s with
  | EmptyString => EmptyString
  | String c s' =>
      match skip with
      | S n => remove_all_from old n s'
      | O => if startswith old s
             then remove_all_from old (String.length old - 1) s'
             else String c (remove_all_from old 0 s')
      end
  end.

Definition remove_all (old s : string) : string := remove_all_from old 0 s.

(** [sep.join(l)] *)
Fixpoint join (sep : string) (l : list string) : string :=
  match l with
  | [] => EmptyString
  | [x] => x
  | x :: l' => x +:+ sep +:+ join sep l'
  end.

(** [str.upper] and [str.lower] on the letters of ASCII; a cased letter
    beyond ASCII is left as it is. *)
Definition upper_char (c : ascii) : ascii :=
  let n := Ascii.nat_of_ascii c in
  if (97 <=? n) && (n <=? 122) then Ascii.ascii_of_nat (n - 32) else c.

Definition lower_char (c : ascii) : ascii :=
  let n := Ascii.nat_of_ascii c in
  if (65 <=? n) && (n <=? 90) then Ascii.ascii_of_nat (n + 32) else c.

Fixpoint map_chars (f : ascii -> ascii) (s : string) : string :=
  match s with
  | String c s' => String (f c) (map_chars f s')
  | EmptyString => EmptyString
  end.

(** [s.upper()] and [s.lower()] *)
Definition upper (s : string) : string := map_chars upper_char s.
Definition lower (s : string) : string := map_chars lower_char s.

End Py.

(** ** Regular expressions: the fragment of [re] the script uses *)

Module Regex.

Inductive regex : Type :=
| Eps                                (* the empty pattern *)
| Chr (c : ascii)                    (* a literal character *)
| Cls (p : ascii -> bool)            (* one character of a class *)
| Cat (r1 r2 : regex)                (* r1 r2 *)
| Alt (r1 r2 : regex)                (* r1|r2, left first *)
| Opt (r : regex)                    (* (?:r)?, greedy *)
| StarG (p : ascii -> bool)          (* class*, greedy *)
| PlusG (p : ascii -> bool)          (* class+, greedy *)
| PlusL (p : ascii -> bool)          (* class+?, lazy *)
| Grp (n : nat) (r : regex).         (* capturing group number n *)

(** A literal string as a pattern. *)
Fixpoint Str (s : string) : regex :=
  match s with
  | EmptyString => Eps
  | String c s' => Cat (Chr c) (Str s')
  end.

(** [.] without DOTALL: every character but the newline. *)
Definition any (c : ascii) : bool := negb (Ascii.eqb c Py.LF).
(** [[^c]] *)
Definition other_than (c : ascii) (x : ascii) : bool := negb (Ascii.eqb x c).
(** [\d], the digits of ASCII; on [str] patterns Python also takes the
    decimal digits of other scripts. *)
Definition digit (c : ascii) : bool :=
  let n := Ascii.nat_of_ascii c in (48 <=? n) && (n <=? 57).
(** [[a-b]] *)
Definition range (a b : ascii) (c : ascii) : bool :=
  (Ascii.nat_of_ascii a <=? Ascii.nat_of_ascii c) &&
  (Ascii.nat_of_ascii c <=? Ascii.nat_of_ascii b).

(** The groups captured so far. *)
Abbreviation caps := (gmap nat string).

Section Matcher.
Context {R : Type}.

(** Greedy star: take as many characters as the class allows, give one
    back at a time while the rest of the pattern fails. *)
Fixpoint star_greedy (p : ascii -> bool) (s : string)
    (k : string -> option R) : option R :=
  match s with
  | String c s' =>
      if p c then
        match star_greedy p s' k with
        | Some r => Some r
        | None => k s
        end
      else k s
  | EmptyString => k s
  end.

Definition plus_greedy (p : ascii -> bool) (s : string)
    (k : string -> option R) : option R :=
  match s with
  | String c s' => if p c then star_greedy p s' k else None
  | EmptyString => None
  end.

(** Lazy plus: take one character, try the rest of the pattern, take one
    more only when that fails. *)
Fixpoint plus_lazy (p : ascii -> bool) (s : string)
    (k : string -> option R) : option R :=
  match s with
  | String c s' =>
      if p c then
        match k s' with
        | Some r => Some r
        | None => plus_lazy p s' k
        end
      else None
  | EmptyString => None
  end.

(** The text between two positions of the subject, each given by what is
    left of the subject there. *)
Definition consumed (s s' : string) : string :=
  Py.take_chars (String.length s - String.length s') s.

(** [run r s g k]: match [r] at the head of [s] with groups [g], then
    continue with [k] on the rest; alternatives are tried in the order of
    a backtracking engine and the first success is the answer. *)
Fixpoint run (r : regex) (s : string) (g : caps)
    (k : string -> caps -> option R) : option R :=
  match r with
  | Eps => k s g
  | Chr c =>
      match s with
      | String c' s' => if Ascii.eqb c c' then k s' g else None
      | EmptyString => None
      end
  | Cls p =>
      match s with
      | String c' s' => if p c' then k s' g else None
      | EmptyString => None
      end
  | Cat r1 r2 => run r1 s g (fun s' g' => run r2 s' g' k)
  | Alt r1 r2 =>
      match run r1 s g k with
      | Some x => Some x
      | None => run r2 s g k
      end
  | Opt r1 =>
      match run r1 s g k with
      | Some x => Some x
      | None => k s g
      end
  | StarG p => star_greedy p s (fun s' => k s' g)
  | PlusG p => plus_greedy p s (fun s' => k s' g)
  | PlusL p => plus_lazy p s (fun s' => k s' g)
  | Grp n r1 => run r1 s g (fun s' g' => k s' (<[n := consumed s s']> g'))
  end.
End Matcher.

(** [re.match(r, s)]: anchored at the start of [s], free at its end. The
    result is the unmatched rest of [s] and the groups. *)
Definition re_match (r : regex) (s : string) : option (string * caps) :=
  run r s ∅ (fun s' g => Some (s', g)).

(** [re.sub(r, repl, s)] for a pattern that cannot match the empty string:
    the leftmost match at or after each position is replaced and the scan
    resumes after it. [fuel] bounds the number of positions visited. *)
Fixpoint sub_from (fuel : nat) (r : regex) (repl : caps -> string)
    (s : string) : string :=
  match fuel with
  | O => s
  | S fuel' =>
      match s with
      | EmptyString => EmptyString
      | String c s' =>
          match re_match r s with
          | Some (rest, g) =>
              if String.length rest <? String.length s
              then repl g +:+ sub_from fuel' r repl rest
              else String c (sub_from fuel' r repl s')
          | None => String c (sub_from fuel' r repl s')
          end
      end
  end.

Definition re_sub (r : regex) (repl : caps -> string) (s : string) : string :=
  sub_from (String.length s) r repl s.

(** [m.group(n)], with the empty string for a group that took no part. *)
Definition group (n : nat) (g : caps) : string := default "" (g !! n).

End Regex.

(** ** The inline formatter *)

Import Py Regex.

(** [\*\*(.+?)\*\*] *)
Definition bold_re : regex :=
  Cat (Str "**") (Cat (Grp 1 (PlusL any)) (Str "**")).

(** [\*(.+?)\*] *)
Definition italic_re : regex :=
  Cat (Chr "*") (Cat (Grp 1 (PlusL any)) (Chr "*")).

(** [\[([^\]]+)\]\(([^)]+)\)] *)
Definition link_re : regex :=
  Cat (Chr "[")
   (Cat (Grp 1 (PlusG (other_than "]")))
    (Cat (Str "](")
     (Cat (Grp 2 (PlusG (other_than ")"))) (Chr ")")))).

Definition bold_repl (g : caps) : string :=
  "<strong>" +:+ group 1 g +:+ "</strong>".
Definition italic_repl (g : caps) : string :=
  "<em>" +:+ group 1 g +:+ "</em>".
Definition link_repl (g : caps) : string :=
  "<a href=" +:+ dq +:+ group 2 g +:+ dq +:+ ">" +:+ group 1 g +:+ "</a>".

(** [inline_format(text)]: bold, then italic, then links. *)
Definition inline_format (text : string) : string :=
  let text := re_sub bold_re bold_repl text in
  let text := re_sub italic_re italic_repl text in
  let text := re_sub link_re link_repl text in
  text.

(** ** The block scanner *)

(** [\[SLIKA:\s*(.+?)\s*(?:\|\s*(.+?))?\s*\]] *)
Definition image_re : regex :=
  Cat (Str "[SLIKA:")
   (Cat (StarG is_space)
    (Cat (Grp 1 (PlusL any))
     (Cat (StarG is_space)
      (Cat (Opt (Cat (Chr "|") (Cat (StarG is_space) (Grp 2 (PlusL any)))))
       (Cat (StarG is_space) (Chr "]")))))).

(** [\[SLIKA:], the test of the paragraph loop. *)
Definition image_head_re : regex := Str "[SLIKA:".

(** The loop variables of [txt_to_html_content]. *)
Record scan_state : Type := ScanState {
  cur : nat;                    (* i *)
  in_list : bool;
  html_parts : list string
}.

(** [if in_list: html_parts.append("        </ul>"); in_list = False] *)
Definition close_list (st : scan_state) : list string :=
  if in_list st then html_parts st ++ ["        </ul>"] else html_parts st.

(** The inner loop of the blockquote rule, from the line under the cursor:
    the stripped lines with their first two characters cut, as long as
    they begin with [> ]. *)
Fixpoint quote_run (ls : list string) : list string :=
  match ls with
  | l :: ls' =>
      if startswith "> " (strip l)
      then drop_chars 2 (strip l) :: quote_run ls'
      else []
  | [] => []
  end.

(** The exit test of the paragraph loop, on a stripped line. *)
Definition para_break (l : string) : bool :=
  is_empty l || startswith "## " l || startswith "### " l
  || startswith "> " l || startswith "- " l
  || bool_decide (is_Some (re_match image_head_re l)).

(** The inner loop of the paragraph rule, from the line under the cursor. *)
Fixpoint para_run (ls : list string) : list string :=
  match ls with
  | l :: ls' => if para_break (strip l) then [] else strip l :: para_run ls'
  | [] => []
  end.

Definition figure_parts (folder_name : string) (g : caps) : list string :=
  let img_file := group 1 g in
  let caption := group 2 g in
  ["        <figure class=" +:+ dq +:+ "blog-figure" +:+ dq +:+ ">";
   "          <img src=" +:+ dq +:+ folder_name +:+ "/" +:+ img_file +:+ dq
     +:+ " alt=" +:+ dq +:+ caption +:+ dq
     +:+ " loading=" +:+ dq +:+ "lazy" +:+ dq +:+ ">"]
  ++ (if is_empty caption then []
      else ["          <figcaption>" +:+ caption +:+ "</figcaption>"])
  ++ ["        </figure>"].

(** One iteration of the [while] loop, entered with [i < len(lines)]. *)
Definition scan_step (lines : list string) (folder_name : string)
    (st : scan_state) : scan_state :=
  match lines !! cur st with
  | None => st
  | Some line =>
      let stripped := strip line in
      if is_empty stripped then
        ScanState (S (cur st)) false (close_list st)
      else
        match re_match image_re stripped with
        | Some (_, g) =>
            ScanState (S (cur st)) false
              (close_list st ++ figure_parts folder_name g)
        | None =>
            if startswith "## " stripped && negb (startswith "### " stripped) then
              let text := inline_format (strip (drop_chars 3 stripped)) in
              ScanState (S (cur st)) false
                (close_list st ++ ["        <h2>" +:+ text +:+ "</h2>"])
            else if startswith "### " stripped then
              let text := inline_format (strip (drop_chars 4 stripped)) in
              ScanState (S (cur st)) false
                (close_list st ++ ["        <h3>" +:+ text +:+ "</h3>"])
            else if startswith "> " stripped then
              let quote_lines := quote_run (drop (cur st) lines) in
              let quote_text := inline_format (join " " quote_lines) in
              ScanState (cur st + length quote_lines) false
                (close_list st ++
                 ["        <blockquote>";
                  "          " +:+ quote_text;
                  "        </blockquote>"])
            else if startswith "- " stripped then
              let text := inline_format (strip (drop_chars 2 stripped)) in
              ScanState (S (cur st)) true
                ((if in_list st then html_parts st
                  else html_parts st ++ ["        <ul>"])
                 ++ ["          <li>" +:+ text +:+ "</li>"])
            else
              let para_lines := para_run (drop (cur st) lines) in
              let para_text := inline_format (join " " para_lines) in
              ScanState (cur st + length para_lines) false
                (close_list st ++ ["        <p>" +:+ para_text +:+ "</p>"])
        end
  end.

(** [while i < len(lines): ...], then the closing of a list still open. *)
Fixpoint scan_loop (fuel : nat) (lines : list string) (folder_name : string)
    (st : scan_state) : option (list string) :=
  if cur st <? length lines then
    match fuel with
    | O => None
    | S fuel' => scan_loop fuel' lines folder_name (scan_step lines folder_name st)
    end
  else Some (close_list st).

Definition scan_init : scan_state := ScanState 0 false [].

(** [txt_to_html_content(body_text, folder_name)] *)
Definition txt_to_html_content (fuel : nat) (body_text folder_name : string)
    : option string :=
  let lines := splitlines (strip body_text) in
  match scan_loop fuel lines folder_name scan_init with
  | Some parts => Some (join nl parts)
  | None => None
  end.

(** ** Metadata *)

(** The body of the loop of [parse_metadata]. *)
Definition parse_line (meta : gmap string string) (line : string)
    : gmap string string :=
  let line := strip line in
  if contains ":" line then
    match split_once ":" line with
    | Some (key, val) => <[upper (strip key) := strip val]> meta
    | None => meta
    end
  else meta.

(** [parse_metadata(header_text)] *)
Definition parse_metadata (header_text : string) : gmap string string :=
  foldl parse_line ∅ (splitlines (strip header_text)).

(** [meta.get(key, dflt)] *)
Definition meta_get (meta : gmap string string) (key dflt : string) : string :=
  default dflt (meta !! key).

(** ** Dates *)

Inductive exn : Type := ValueError.

(** What a call comes to: a value, an exception that nothing catches, or a
    loop that did not exit within the fuel. *)
Inductive outcome (A : Type) : Type :=
| Done (a : A)
| Raised (e : exn)
| Timeout.
Arguments Done {A} a.
Arguments Raised {A} e.
Arguments Timeout {A}.

Definition bind {A B : Type} (x : outcome A) (f : A -> outcome B) : outcome B :=
  match x with
  | Done a => f a
  | Raised e => Raised e
  | Timeout => Timeout
  end.

Notation "x ← y ;;; z" := (bind y (fun x => z))
  (at level 20, y at level 100, z at level 200, right associativity).

Definition MONTHS_HR : list string :=
  ["siječnja"; "veljače"; "ožujka"; "travnja"; "svibnja"; "lipnja";
   "srpnja"; "kolovoza"; "rujna"; "listopada"; "studenoga"; "prosinca"].

(** The pattern [datetime.strptime] builds for the format [%Y-%m-%d]:
    [(\d\d\d\d)-(1[0-2]|0[1-9]|[1-9])-(3[01]|[12]\d|0[1-9]|[1-9]| [1-9])]. *)
Definition date_re : regex :=
  Cat (Grp 1 (Cat (Cls digit) (Cat (Cls digit) (Cat (Cls digit) (Cls digit)))))
   (Cat (Chr "-")
    (Cat (Grp 2 (Alt (Cat (Chr "1") (Cls (range "0" "2")))
                (Alt (Cat (Chr "0") (Cls (range "1" "9")))
                     (Cls (range "1" "9")))))
     (Cat (Chr "-")
      (Grp 3 (Alt (Cat (Chr "3") (Cls (range "0" "1")))
             (Alt (Cat (Cls (range "1" "2")) (Cls digit))
             (Alt (Cat (Chr "0") (Cls (range "1" "9")))
             (Alt (Cls (range "1" "9"))
                  (Cat (Chr " ") (Cls (range "1" "9"))))))))))).

(** [int(s)] on a string of decimal digits, blanks around them allowed. *)
Fixpoint int_of_digits (acc : nat) (s : string) : nat :=
  match s with
  | String c s' =>
      if digit c then int_of_digits (10 * acc + (Ascii.nat_of_ascii c - 48)) s'
      else int_of_digits acc s'
  | EmptyString => acc
  end.

Definition is_leap (y : nat) : bool :=
  (y mod 4 =? 0) && (negb (y mod 100 =? 0) || (y mod 400 =? 0)).

Definition days_in_month (y m : nat) : nat :=
  match m with
  | 2 => if is_leap y then 29 else 28
  | 4 | 6 | 9 | 11 => 30
  | _ => 31
  end.

(** [datetime.strptime(s, "%Y-%m-%d")], reduced to year, month and day: the
    pattern must match at the start of [s] and leave nothing over, and the
    three numbers must name a day of the calendar from year 1 on. *)
Definition strptime_ymd (s : string) : outcome (nat * nat * nat) :=
  match re_match date_re s with
  | Some (rest, g) =>
      if is_empty rest then
        let y := int_of_digits 0 (group 1 g) in
        let m := int_of_digits 0 (group 2 g) in
        let d := int_of_digits 0 (group 3 g) in
        if (1 <=? y) && (d <=? days_in_month y m) then Done (y, m, d)
        else Raised ValueError
      else Raised ValueError
  | None => Raised ValueError
  end.

(** [format_date_hr(date_str)] *)
Definition format_date_hr (date_str : string) : outcome string :=
  d ← strptime_ymd (strip date_str) ;;;
  let '(year, month, day) := d in
  Done (pretty day +:+ ". " +:+ default "" (MONTHS_HR !! (month - 1))
        +:+ " " +:+ pretty year +:+ ".").

(** ** The page *)

Definition BASE_URL : string := "https://tenderatlas.hr".

(** The document [generate_html] returns is a fixed template with holes;
    a page is kept as the values that fill the holes, in the order of the
    script's local variables, and the text of the template around them is
    not repeated here. *)
Record html_page : Type := HtmlPage {
  pg_title : string;
  pg_desc : string;
  pg_date : string;
  pg_tag : string;
  pg_slug : string;
  pg_date_hr : string;
  pg_hero_section : string;
  pg_hero_img_url : string;
  pg_content_html : string
}.

(** [generate_html(meta, content_html, folder_name)] *)
Definition generate_html (meta : gmap string string)
    (content_html folder_name : string) : outcome html_page :=
  let title := meta_get meta "NASLOV" "Blog Post" in
  let desc := meta_get meta "OPIS" "" in
  let date := meta_get meta "DATUM" "2026-01-01" in
  let tag := meta_get meta "KATEGORIJA" "Članak" in
  let hero := meta_get meta "HERO" "" in
  let slug := folder_name in
  date_hr ← format_date_hr date ;;;
  let hero_path := folder_name +:+ "/" +:+ hero in
  let hero_img_url :=
    if is_empty hero then BASE_URL +:+ "/img.png"
    else BASE_URL +:+ "/blog/" +:+ hero_path in
  let hero_section :=
    if is_empty hero then ""
    else nl +:+ "    <div class=" +:+ dq +:+ "blog-post-hero" +:+ dq +:+ ">" +:+ nl
         +:+ "      <img src=" +:+ dq +:+ hero_path +:+ dq
         +:+ " alt=" +:+ dq +:+ title +:+ dq +:+ ">" +:+ nl
         +:+ "    </div>" +:+ nl in
  Done (HtmlPage title desc date tag slug date_hr hero_section hero_img_url
          content_html).

(** ** Thumbnails *)

Definition IMAGE_EXTENSIONS : list string :=
  [".png"; ".jpg"; ".jpeg"; ".webp"; ".gif"; ".svg"].

(** [name[name.rfind("."):]], [None] when [name] has no dot. *)
Fixpoint from_last_dot (s : string) : option string :=
  match s with
  | EmptyString => None
  | String c s' =>
      match from_last_dot s' with
      | Some t => Some t
      | None => if Ascii.eqb c "." then Some s else None
      end
  end.

(** [Path.suffix]: the text from the last dot of the name on, when that dot
    is neither the first nor the last character of the name. *)
Definition path_suffix (name : string) : string :=
  match name with
  | String _ rest =>
      match from_last_dot rest with
      | Some t => if 1 <? String.length t then t else ""
      | None => ""
      end
  | EmptyString => ""
  end.

(** [find_first_image(folder_path)], on the sorted names of the folder. *)
Fixpoint find_first_image (names : list string) : string :=
  match names with
  | f :: rest =>
      if bool_decide (lower (path_suffix f) ∈ IMAGE_EXTENSIONS) then f
      else find_first_image rest
  | [] => ""
  end.

(** ** The catalog *)

(** An object of [posts.json]. A key can be missing in a record that was
    written by hand, hence the options; the script reads [file] and [date]
    with [.get(key, "")]. *)
Record post : Type := Post {
  p_file : option string;
  p_title : option string;
  p_description : option string;
  p_date : option string;
  p_image : option string;
  p_tag : option string
}.

(** [ep.get("file", "").replace(".html", "")] *)
Definition post_slug (ep : post) : string :=
  remove_all ".html" (default "" (p_file ep)).

(** [p.get("date", "")], the sort key. *)
Definition post_date (p : post) : string := default "" (p_date p).

(** [l.sort(key=key, reverse=True)]. Python's sort is stable, also with
    [reverse=True]: records with equal keys keep the order they had. The
    result of a stable sort does not depend on the algorithm; it is
    computed here by insertion, from the right end of the list. *)
Section Sort.
Context {A : Type} (key : A -> string).

Fixpoint insert_desc (x : A) (l : list A) : list A :=
  match l with
  | [] => [x]
  | y :: l' =>
      if String.ltb (key x) (key y) then y :: insert_desc x l'
      else x :: y :: l'
  end.

Fixpoint sort_desc (l : list A) : list A :=
  match l with
  | [] => []
  | x :: l' => insert_desc x (sort_desc l')
  end.
End Sort.

(** ** The build *)

(** What the build finds in the blog folder: one entry per name, with the
    content of its [sadrzaj.txt] when it is a folder that has one, and the
    sorted names of what the folder holds. The content is the text
    [read_text] returns; a file that is not well-formed UTF-8, on which
    [read_text] raises [UnicodeDecodeError], is not among the entries. *)
Record dir_entry : Type := DirEntry {
  name : string;
  is_dir : bool;
  sadrzaj_txt : option string;
  listing : list string
}.

(** The state of [posts.json] before the run: missing, not valid JSON, or
    a JSON array of objects whose values are strings. Valid JSON of another
    shape, on which the merge or the sort raises, is not among the
    states. *)
Inductive catalog_file : Type :=
| NoFile
| Malformed
| Parsed (records : list post).

(** The lines the build prints. *)
Inductive message : Type :=
| MsgBuilding (folder_name : string)
| MsgNoSeparator (folder_name : string)
| MsgNoTitle (folder_name : string)
| MsgGenerated (slug : string)
| MsgCatalog (count : nat).

(** The variables the folder loop of [build_blog] updates, with the files
    written and the lines printed so far. *)
Record build_state : Type := BuildState {
  posts : list post;
  generated_slugs : gset string;
  written : list (string * html_page);
  printed : list message
}.

Definition skip_dirs : list string := ["img"].

(** The folders the loop does not pass over: a directory, not named with a
    leading [_] or [.], not a reserved name, holding a [sadrzaj.txt]. *)
Definition visited (item : dir_entry) : bool :=
  is_dir item
  && negb (startswith "_" (name item) || startswith "." (name item)
           || bool_decide (name item ∈ skip_dirs))
  && bool_decide (is_Some (sadrzaj_txt item)).

(** The body of the folder loop, for one entry. *)
Definition build_folder (fuel : nat) (item : dir_entry) (st : build_state)
    : outcome build_state :=
  if negb (is_dir item) then Done st
  else if startswith "_" (name item) || startswith "." (name item)
          || bool_decide (name item ∈ skip_dirs) then Done st
  else
    match sadrzaj_txt item with
    | None => Done st
    | Some raw =>
        let folder_name := name item in
        let slug := folder_name in
        let slugs := generated_slugs st ∪ {[slug]} in
        let out := printed st ++ [MsgBuilding folder_name] in
        if contains "---" raw then
          match split_once "---" raw with
          | None => Done (BuildState (posts st) slugs (written st) out)
          | Some (header_part, body_part) =>
              let meta := parse_metadata header_part in
              if is_empty (meta_get meta "NASLOV" "") then
                Done (BuildState (posts st) slugs (written st)
                        (out ++ [MsgNoTitle folder_name]))
              else
                match txt_to_html_content fuel body_part folder_name with
                | None => Timeout
                | Some content_html =>
                    html ← generate_html meta content_html folder_name ;;;
                    let hero := meta_get meta "HERO" "" in
                    let thumb :=
                      if negb (is_empty hero) then folder_name +:+ "/" +:+ hero
                      else
                        let first_img := find_first_image (listing item) in
                        if negb (is_empty first_img)
                        then folder_name +:+ "/" +:+ first_img
                        else "../img.png" in
                    let record :=
                      Post (Some (slug +:+ ".html"))
                           (Some (meta_get meta "NASLOV" ""))
                           (Some (meta_get meta "OPIS" ""))
                           (Some (meta_get meta "DATUM" "2026-01-01"))
                           (Some thumb)
                           (Some (meta_get meta "KATEGORIJA" "Članak")) in
                    Done (BuildState (posts st ++ [record]) slugs
                            (written st ++ [(slug +:+ ".html", html)])
                            (out ++ [MsgGenerated slug]))
                end
          end
        else
          Done (BuildState (posts st) slugs (written st)
                  (out ++ [MsgNoSeparator folder_name]))
    end.

(** [for item in sorted(BLOG_DIR.iterdir()): ...] *)
Fixpoint scan_folders (fuel : nat) (items : list dir_entry) (st : build_state)
    : outcome build_state :=
  match items with
  | [] => Done st
  | item :: rest =>
      st' ← build_folder fuel item st ;;;
      scan_folders fuel rest st'
  end.

(** The records read from [posts.json]: none when the file is missing or
    does not parse. *)
Definition load_existing (f : catalog_file) : list post :=
  match f with
  | Parsed records => records
  | NoFile | Malformed => []
  end.

(** The last part of [build_blog]: keep the old records whose slug is not
    in [generated_slugs], put them after the new ones and sort. *)
Definition merge_catalog (new_posts : list post) (slugs : gset string)
    (existing_posts : list post) : list post :=
  let manual_posts :=
    filter (fun ep => post_slug ep ∉ slugs) existing_posts in
  let all_posts := new_posts ++ manual_posts in
  sort_desc post_date all_posts.

(** What a run leaves behind. *)
Record build_result : Type := BuildResult {
  html_files : list (string * html_page);
  catalog : list post;
  console : list message
}.

Definition build_init : build_state := BuildState [] ∅ [] [].

(** [build_blog()] *)
Definition build_blog (fuel : nat) (blog_dir : list dir_entry)
    (posts_json : catalog_file) : outcome build_result :=
  let existing_posts := load_existing posts_json in
  st ← scan_folders fuel blog_dir build_init ;;;
  let all_posts := merge_catalog (posts st) (generated_slugs st) existing_posts in
  Done (BuildResult (written st) all_posts
          (printed st ++ [MsgCatalog (length all_posts)])).

(** ** Statements taken from the specification, and sample inputs *)


(** The merge as the specification words it: the old records that are kept
    are those whose slug is not the slug of a record of the new batch. *)
Definition merge_by_batch_slugs (batch persisted : list post) : list post :=
  let G : gset string := list_to_set (post_slug <$> batch) in
  sort_desc post_date (batch ++ filter (fun ep => post_slug ep ∉ G) persisted).


(** A body whose only line opens an image directive and never closes it. *)
Definition unclosed_image_body : string := "[SLIKA: x.png".

(** A post whose date is not a date, and a post with nothing wrong. *)
Definition bad_date_folder : dir_entry :=
  DirEntry "novosti" true
    (Some ("NASLOV: Novosti" +:+ nl +:+ "DATUM: uskoro" +:+ nl
           +:+ "---" +:+ nl +:+ "Tekst."))
    [].

Definition good_folder : dir_entry :=
  DirEntry "vodic" true
    (Some ("NASLOV: Vodic" +:+ nl +:+ "DATUM: 2026-02-20" +:+ nl
           +:+ "---" +:+ nl +:+ "Tekst."))
    [].

(** A post folder whose name holds [.html]. *)
Definition dotted_folder : dir_entry :=
  DirEntry "a.html" true
    (Some ("NASLOV: T" +:+ nl +:+ "---" +:+ nl +:+ "x"))
    [].



(** A folder without separator, and an old record of the same slug. *)
Definition broken_folder : dir_entry :=
  DirEntry "legacy-post" true (Some "NASLOV: T") [].

Definition legacy_record : post :=
  Post (Some "legacy-post.html") (Some "Legacy") (Some "")
       (Some "2025-05-05") (Some "../img.png") (Some "Analiza").



(** [x] does not sort after [y] in the descending order of the keys. *)
Definition ge_key {A : Type} (key : A → string) (x y : A) : Prop :=
  String.ltb (key x) (key y) = false.

(** ** Vocabulary for the scanner's runs *)

Definition is_quote_line (l : string) : bool := startswith "> " (strip l).

(** The part appended for one list-item line. *)
Definition list_item (l : string) : string :=
  "          <li>" +:+ inline_format (strip (drop_chars 2 (strip l))) +:+ "</li>".


(** A line that opens an image directive and fails the image pattern. *)
Definition stuck_line (l : string) : bool :=
  bool_decide (is_Some (re_match image_head_re (strip l)))
  && bool_decide (re_match image_re (strip l) = None).


(** The states the loop of [txt_to_html_content] goes through. *)
Inductive reachable (lines : list string) (folder_name : string)
    : scan_state → Prop :=
| reachable_init : reachable lines folder_name scan_init
| reachable_step st :
    reachable lines folder_name st →
    cur st < length lines →
    reachable lines folder_name (scan_step lines folder_name st).

(** The rule the scanner applies to a stripped line; the rules are tried in
    the order of the script. *)
Inductive rule : Type :=
| RBlank | RImage (g : Regex.caps) | RH2 | RH3 | RQuote | RList | RPara.

Definition rule_of (s : string) : rule :=
  if is_empty s then RBlank
  else match re_match image_re s with
       | Some (_, g) => RImage g
       | None =>
           if startswith "## " s && negb (startswith "### " s) then RH2
           else if startswith "### " s then RH3
           else if startswith "> " s then RQuote
           else if startswith "- " s then RList
           else RPara
       end.


(** ** Vocabulary for the patterns *)

(** Every character of [s] is in the class [p]. *)
Fixpoint all_chars (p : ascii → bool) (s : string) : bool :=
  match s with
  | EmptyString => true
  | String c s' => p c && all_chars p s'
  end.








(** The continuation of [re_match]: what is left of the subject, and the
    groups. *)
Definition K0 : string → Regex.caps → option (string * Regex.caps) :=
  λ s g, Some (s, g).


(** A character of a plain word: no newline, no asterisk, no opening
    bracket. *)
Definition word_char (c : ascii) : bool :=
  any c && other_than "*" c && other_than "[" c.

(** A span of text without inline markup: not empty, made of such
    characters. *)
Definition wordlike (s : string) : bool :=
  negb (is_empty s) && all_chars word_char s.

(** Every record of the batch has its slug among the generated slugs. *)
Definition batch_slugs_known (st : build_state) : Prop :=
  ∀ p, p ∈ posts st → post_slug p ∈ generated_slugs st.

(** ** The texts the model reads as Python does *)




(** [str.upper] changes every cased letter of Unicode, [upper] the letters
    [a] to [z]; they agree on ASCII text. *)
Definition is_ascii (c : ascii) : bool := Ascii.nat_of_ascii c <? 128.









(** The slug of a record in the words of the specification: the base name
    of its file, that is the file name without the extension [.html]. *)
Definition ends_with (suffix s : string) : bool :=
  (String.length suffix <=? String.length s)
  && String.eqb (drop_chars (String.length s - String.length suffix) s) suffix.

Definition file_stem (f : string) : string :=
  if ends_with ".html" f then take_chars (String.length f - 5) f else f.

Definition record_slug (ep : post) : string :=
  file_stem (default "" (p_file ep)).

(** A record whose file name holds [.html] nowhere but as its extension. *)
Definition plain_file_name (ep : post) : bool :=
  negb (contains ".html" (record_slug ep)).




(** ** Vocabulary for the further properties *)

(** A character that starts no inline markup: neither an asterisk nor an
    opening bracket. *)
Definition markup_free_char (c : ascii) : bool :=
  other_than "*" c && other_than "[" c.

(** A text without asterisk and opening bracket. *)
Definition markup_free (s : string) : bool := all_chars markup_free_char s.

(** The label of a link: not empty, without markup characters and closing
    bracket; and its target: not empty, without markup characters and
    closing parenthesis. *)
Definition label_char (c : ascii) : bool :=
  markup_free_char c && other_than "]" c.

Definition target_char (c : ascii) : bool :=
  markup_free_char c && other_than ")" c.

Definition link_label (s : string) : bool :=
  negb (is_empty s) && all_chars label_char s.

Definition link_target (s : string) : bool :=
  negb (is_empty s) && all_chars target_char s.

(** The two parts that open and close a list. *)
Definition ul_open : string := "        <ul>".
Definition ul_close : string := "        </ul>".

(** Reading the parts from left to right with a flag that tells whether a
    list is open: [<ul>] is met only with the flag down and raises it,
    [</ul>] only with the flag up and lowers it. The result is the flag at
    the end, or [None] when a part is met with the wrong flag. *)
Fixpoint ul_nesting (open : bool) (parts : list string) : option bool :=
  match parts with
  | [] => Some open
  | p :: ps =>
      if String.eqb p ul_open then
        if open then None else ul_nesting true ps
      else if String.eqb p ul_close then
        if open then ul_nesting false ps else None
      else ul_nesting open ps
  end.


(** Sample bodies. *)
Definition sample_para_lines : list string :=
  ["- stavka"; "Prvi redak"; "  drugi redak "; ""; "Treci."].
Definition sample_stuck_body : string :=
  "Uvod." +:+ nl +:+ "[SLIKA: graf.png | Graf" +:+ nl +:+ "Kraj.".

(** The list parts among the parts of a state open and close in turn, and
    the flag of the state tells whether the last list is still open. *)
Definition nested (st : scan_state) : Prop :=
  ul_nesting false (html_parts st) = Some (in_list st).

(** A name with the suffix of an image, as [find_first_image] tests it. *)
Definition is_image_name (f : string) : bool :=
  bool_decide (lower (path_suffix f) ∈ IMAGE_EXTENSIONS).

(** The three groups of [date_re], and what the month and the day group
    can hold: digits that read as a number from 1 to 12, and from 1 on. *)
Definition year_re : regex :=
  Cat (Cls digit) (Cat (Cls digit) (Cat (Cls digit) (Cls digit))).

Definition month_re : regex :=
  Alt (Cat (Chr "1") (Cls (range "0" "2")))
   (Alt (Cat (Chr "0") (Cls (range "1" "9"))) (Cls (range "1" "9"))).

Definition day_re : regex :=
  Alt (Cat (Chr "3") (Cls (range "0" "1")))
   (Alt (Cat (Cls (range "1" "2")) (Cls digit))
   (Alt (Cat (Chr "0") (Cls (range "1" "9")))
   (Alt (Cls (range "1" "9")) (Cat (Chr " ") (Cls (range "1" "9")))))).

Definition month_text (ms : string) : Prop :=
  1 ≤ int_of_digits 0 ms ≤ 12.

Definition day_text (ds : string) : Prop :=
  1 ≤ int_of_digits 0 ds.


(** The name of the file written for a folder. *)
Definition file_of (item : dir_entry) : string := name item +:+ ".html".

(** * Properties *)

(** ** The scanner on an image directive that is not closed *)

Lemma unclosed_image_step (folder_name : string) (parts : list string) :
  scan_step [unclosed_image_body] folder_name (ScanState 0 false parts)
  = ScanState 0 false (parts ++ ["        <p></p>"]).
Proof. vm_compute. reflexivity. Qed.

Lemma unclosed_image_loop (folder_name : string) (fuel : nat) :
  ∀ parts,
    scan_loop fuel [unclosed_image_body] folder_name (ScanState 0 false parts)
    = None.
Proof.
  induction fuel as [|fuel IH]; intros parts; [reflexivity|].
  change (scan_loop (S fuel) ?l ?f ?st)
    with (scan_loop fuel l f (scan_step l f st)).
  rewrite unclosed_image_step. apply IH.
Qed.

(** C1. On the body [[SLIKA: x.png] the image pattern fails and the line
    goes to the paragraph rule, but the paragraph loop stops on the
    [[SLIKA:] test before it takes the line: the iteration appends an empty
    paragraph and leaves the cursor on the same line, so the loop does not
    exit, whatever the fuel. *)
Theorem unclosed_image_never_returns :
  re_match image_re (strip unclosed_image_body) = None
  ∧ (∀ folder_name parts,
       cur (scan_step (splitlines (strip unclosed_image_body)) folder_name
              (ScanState 0 false parts)) = 0)
  ∧ (∀ fuel folder_name,
       txt_to_html_content fuel unclosed_image_body folder_name = None).
Proof.
  split; [vm_compute; reflexivity|]. split.
  - intros folder_name parts.
    change (splitlines (strip unclosed_image_body)) with [unclosed_image_body].
    by rewrite unclosed_image_step.
  - intros fuel folder_name. unfold txt_to_html_content, scan_init.
    change (splitlines (strip unclosed_image_body)) with [unclosed_image_body].
    by rewrite unclosed_image_loop.
Qed.

(** ** The build on a date that does not parse *)

(** C3. A folder whose [DATUM] is not a date makes [format_date_hr] raise
    inside [generate_html]; nothing catches the exception, so the run ends
    there: no catalog is written and the folder after it is never built. *)
Theorem bad_date_aborts_build :
  (∀ fuel posts_json,
     build_blog (S fuel) [bad_date_folder; good_folder] posts_json
     = Raised ValueError)
  ∧ (∀ fuel posts_json r,
       build_blog fuel [bad_date_folder; good_folder] posts_json ≠ Done r).
Proof.
  assert (∀ fuel posts_json,
            build_blog (S fuel) [bad_date_folder; good_folder] posts_json
            = Raised ValueError) as Hraise.
  { intros [|fuel] posts_json; vm_compute; reflexivity. }
  split; [exact Hraise|].
  intros [|fuel] posts_json r; [|by rewrite Hraise].
  vm_compute. discriminate.
Qed.

(** ** A second run over a folder whose name holds [.html] *)

(** C5. For the folder [a.html] the record of the first run has the file
    [a.html.html], whose slug by [replace(".html", "")] is [a] and not the
    folder name; the second run keeps it as a manual record next to the
    fresh one, and the catalog grows from one record to two. *)
Theorem second_run_duplicates_record :
  ∀ fuel, ∃ r1 r2,
    build_blog (S fuel) [dotted_folder] NoFile = Done r1
    ∧ build_blog (S fuel) [dotted_folder] (Parsed (catalog r1)) = Done r2
    ∧ html_files r2 = html_files r1
    ∧ catalog r2 = catalog r1 ++ catalog r1
    ∧ length (catalog r1) = 1
    ∧ catalog r2 ≠ catalog r1.
Proof.
  intros fuel.
  assert (∃ r1, build_blog (S fuel) [dotted_folder] NoFile = Done r1
     ∧ length (catalog r1) = 1
     ∧ ∃ r2, build_blog (S fuel) [dotted_folder] (Parsed (catalog r1)) = Done r2
       ∧ html_files r2 = html_files r1
       ∧ catalog r2 = catalog r1 ++ catalog r1) as (r1 & H1 & Hlen & r2 & H2 & Hf & Hc).
  { destruct fuel; eexists; (split; [vm_compute; reflexivity|]);
      (split; [reflexivity|]); eexists; (split; [vm_compute; reflexivity|]);
      split; reflexivity. }
  exists r1, r2. repeat split; try done.
  intros Heq. apply (f_equal length) in Heq.
  rewrite Hc, length_app in Heq. lia.
Qed.

(** ** Metadata: the last binding of a key wins *)

#[local] Arguments Ascii.eqb : simpl never.

Lemma startswith_colon c s : startswith ":" (String c s) = bool_decide (c = ":"%char).
Proof.
  simpl. rewrite andb_true_r. destruct (Ascii.eqb ":" c) eqn:E.
  - apply Ascii.eqb_eq in E. subst c. by rewrite bool_decide_eq_true_2.
  - apply Ascii.eqb_neq in E. rewrite bool_decide_eq_false_2; [done|]. intros ->. by apply E.
Qed.

Lemma contains_colon_cons c s :
  contains ":" (String c s) = bool_decide (c = ":"%char) || contains ":" s.
Proof. cbn [contains]. by rewrite startswith_colon. Qed.




















(** ** Sorting *)

Lemma string_ltb_irrefl (a : string) : String.ltb a a = false.
Proof.
  unfold String.ltb. pose proof (String.compare_antisym a a) as H.
  destruct (String.compare a a); done.
Qed.

Lemma string_ltb_asym (a b : string) :
  String.ltb a b = true → String.ltb b a = false.
Proof.
  unfold String.ltb. rewrite (String.compare_antisym a b).
  destruct (String.compare b a); done.
Qed.

Section SortFacts.
Context {A : Type} (key : A → string).

Lemma insert_desc_perm x l : insert_desc key x l ≡ₚ x :: l.
Proof.
  induction l as [|y l IH]; simpl; [done|].
  destruct (String.ltb (key x) (key y)); [|done].
  rewrite IH. apply Permutation_swap.
Qed.

Lemma sort_desc_perm l : sort_desc key l ≡ₚ l.
Proof.
  induction l as [|x l IH]; simpl; [done|].
  by rewrite insert_desc_perm, IH.
Qed.

Lemma insert_desc_sorted x l :
  Sorted (ge_key key) l → Sorted (ge_key key) (insert_desc key x l).
Proof.
  induction 1 as [|y l Hs IH Hhd]; simpl.
  - by repeat constructor.
  - destruct (String.ltb (key x) (key y)) eqn:Hxy.
    + constructor; [done|]. destruct Hhd as [|z l Hyz]; simpl.
      * constructor. by apply string_ltb_asym.
      * destruct (String.ltb (key x) (key z)); constructor; [done|].
        by apply string_ltb_asym.
    + constructor; [by constructor|]. by constructor.
Qed.

Lemma sort_desc_sorted l : Sorted (ge_key key) (sort_desc key l).
Proof.
  induction l as [|x l IH]; simpl; [constructor|].
  by apply insert_desc_sorted.
Qed.

Lemma insert_desc_stable d x l :
  filter (λ y, key y = d) (insert_desc key x l)
  = filter (λ y, key y = d) (x :: l).
Proof.
  induction l as [|y l IH]; simpl; [done|].
  destruct (String.ltb (key x) (key y)) eqn:Hxy; [|done].
  rewrite !filter_cons in *. rewrite IH.
  destruct (decide (key x = d)) as [Hx|Hx]; [|done].
  destruct (decide (key y = d)) as [Hy|Hy]; [|done].
  rewrite Hx, Hy, string_ltb_irrefl in Hxy. done.
Qed.

Lemma sort_desc_stable d l :
  filter (λ y, key y = d) (sort_desc key l) = filter (λ y, key y = d) l.
Proof.
  induction l as [|x l IH]; simpl; [done|].
  rewrite insert_desc_stable, !filter_cons, IH. done.
Qed.
End SortFacts.

(** ** The folder loop *)


Lemma split_once_contains sep s a b :
  split_once sep s = Some (a, b) → contains sep s = true.
Proof.
  revert a. induction s as [|c s IH]; intros a.
  - cbn [contains split_once]. by destruct (startswith sep "").
  - cbn [contains split_once]. destruct (startswith sep (String c s)); [done|].
    destruct (split_once sep s) as [[a' b']|] eqn:Hs in |- *; [|done].
    intros [= _ <-]. simpl. by eapply IH.
Qed.

Lemma visited_true item :
  visited item = true ↔
  is_dir item = true
  ∧ (startswith "_" (name item) || startswith "." (name item)
     || bool_decide (name item ∈ skip_dirs)) = false
  ∧ is_Some (sadrzaj_txt item).
Proof.
  unfold visited. rewrite !andb_true_iff, negb_true_iff, bool_decide_eq_true.
  tauto.
Qed.

Lemma build_folder_not_visited fuel item st :
  visited item = false → build_folder fuel item st = Done st.
Proof.
  unfold visited, build_folder.
  set (ex := startswith "_" (name item) || startswith "." (name item)
             || bool_decide (name item ∈ skip_dirs)).
  intros H. destruct (is_dir item); [|done].
  destruct ex; [done|]. cbn [negb andb] in *.
  destruct (sadrzaj_txt item); [|done].
  rewrite bool_decide_eq_false in H. exfalso. apply H. by eauto.
Qed.

Lemma build_folder_slugs fuel item st st' :
  build_folder fuel item st = Done st' →
  generated_slugs st' =
    if visited item then generated_slugs st ∪ {[name item]}
    else generated_slugs st.
Proof.
  destruct (visited item) eqn:Hv.
  - apply visited_true in Hv as (Hd & Hn & [raw Hraw]).
    unfold build_folder. rewrite Hd, Hn, Hraw. cbn [negb].
    destruct (contains "---" raw); [|by intros [= <-]].
    destruct (split_once "---" raw) as [[h b]|]; [|by intros [= <-]].
    destruct (is_empty _); [by intros [= <-]|].
    destruct (txt_to_html_content _ _ _); [|done].
    destruct (generate_html _ _ _); simpl; [|done..].
    by intros [= <-].
  - rewrite build_folder_not_visited by done. by intros [= <-].
Qed.

Lemma scan_folders_slugs fuel items : ∀ st st',
  scan_folders fuel items st = Done st' →
  generated_slugs st' =
    generated_slugs st
    ∪ list_to_set (name <$> filter (λ item, visited item = true) items).
Proof.
  induction items as [|item items IH]; intros st st'; simpl.
  - intros [= <-]. by rewrite union_empty_r_L.
  - destruct (build_folder fuel item st) as [st1| |] eqn:Hb; simpl; [|done..].
    intros H. apply IH in H. apply build_folder_slugs in Hb.
    rewrite H, Hb, filter_cons. case_decide as Hv.
    + rewrite Hv, fmap_cons, list_to_set_cons. by rewrite (assoc_L (∪)).
    + apply not_true_is_false in Hv. by rewrite Hv.
Qed.

(** ** Skipped folders *)





(** ** The scanner: one iteration *)

Lemma startswith_inv p s : startswith p s = true → ∃ t, s = p +:+ t.
Proof.
  revert s. induction p as [|a p IH]; intros s; [by eexists|].
  destruct s as [|b s]; [done|]. cbn [startswith].
  intros [Hab Hp]%andb_true_iff. apply Ascii.eqb_eq in Hab as ->.
  destruct (IH _ Hp) as [t ->]. by exists t.
Qed.

Lemma startswith_app p t : startswith p (p +:+ t) = true.
Proof.
  induction p as [|a p IH]; [done|]. simpl.
  by rewrite Ascii.eqb_refl, IH.
Qed.


Lemma image_head_re_head c t :
  c ≠ "["%char → re_match image_head_re (String c t) = None.
Proof.
  intros Hc. unfold re_match, image_head_re. cbn [run Str].
  apply Ascii.eqb_neq in Hc. rewrite Ascii.eqb_sym in Hc. by rewrite Hc.
Qed.


Lemma scan_step_rule lines folder_name st l :
  lines !! cur st = Some l →
  scan_step lines folder_name st =
  let s := strip l in
  match rule_of s with
  | RBlank => ScanState (S (cur st)) false (close_list st)
  | RImage g =>
      ScanState (S (cur st)) false (close_list st ++ figure_parts folder_name g)
  | RH2 =>
      ScanState (S (cur st)) false
        (close_list st ++
         ["        <h2>" +:+ inline_format (strip (drop_chars 3 s)) +:+ "</h2>"])
  | RH3 =>
      ScanState (S (cur st)) false
        (close_list st ++
         ["        <h3>" +:+ inline_format (strip (drop_chars 4 s)) +:+ "</h3>"])
  | RQuote =>
      let quote_lines := quote_run (drop (cur st) lines) in
      ScanState (cur st + length quote_lines) false
        (close_list st ++
         ["        <blockquote>";
          "          " +:+ inline_format (join " " quote_lines);
          "        </blockquote>"])
  | RList =>
      ScanState (S (cur st)) true
        ((if in_list st then html_parts st
          else html_parts st ++ ["        <ul>"])
         ++ [list_item l])
  | RPara =>
      let para_lines := para_run (drop (cur st) lines) in
      ScanState (cur st + length para_lines) false
        (close_list st ++
         ["        <p>" +:+ inline_format (join " " para_lines) +:+ "</p>"])
  end.
Proof.
  intros Hl. unfold scan_step, rule_of. rewrite Hl. cbn zeta.
  destruct (is_empty (strip l)); [done|].
  destruct (re_match image_re (strip l)) as [[rest g]|]; [done|].
  destruct (startswith "## " (strip l) && negb (startswith "### " (strip l)));
    [done|].
  destruct (startswith "### " (strip l)); [done|].
  destruct (startswith "> " (strip l)); [done|].
  destruct (startswith "- " (strip l)); done.
Qed.




Lemma rule_of_quote_inv s : rule_of s = RQuote → startswith "> " s = true.
Proof.
  unfold rule_of. repeat case_match; done.
Qed.

(** ** The inner loops *)


Lemma quote_run_length_le ls k l :
  ls !! k = Some l → is_quote_line l = false → length (quote_run ls) ≤ k.
Proof.
  revert ls. induction k as [|k IH]; intros [|x ls] Hk Hl; try done.
  - injection Hk as ->. cbn [quote_run]. unfold is_quote_line in Hl.
    by rewrite Hl.
  - cbn [quote_run]. destruct (startswith "> " (strip x)); cbn [length]; [|lia].
    apply le_n_S. by apply IH.
Qed.

Lemma para_run_length_le ls k l :
  ls !! k = Some l → para_break (strip l) = true → length (para_run ls) ≤ k.
Proof.
  revert ls. induction k as [|k IH]; intros [|x ls] Hk Hl; try done.
  - injection Hk as ->. cbn [para_run]. by rewrite Hl.
  - cbn [para_run]. destruct (para_break (strip x)); cbn [length]; [lia|].
    apply le_n_S. by apply IH.
Qed.




(** ** Progress of the cursor *)

Lemma rule_para_break s :
  rule_of s = RPara →
  para_break s = bool_decide (is_Some (re_match image_head_re s)).
Proof.
  unfold rule_of, para_break.
  destruct (is_empty s); [done|].
  destruct (re_match image_re s) as [[? ?]|]; [done|].
  destruct (startswith "### " s); [by rewrite andb_false_r|].
  rewrite andb_true_r.
  destruct (startswith "## " s); [done|].
  destruct (startswith "> " s); [done|].
  destruct (startswith "- " s); done.
Qed.

Lemma rule_para_image s : rule_of s = RPara → re_match image_re s = None.
Proof.
  unfold rule_of. destruct (is_empty s); [done|].
  by destruct (re_match image_re s) as [[? ?]|].
Qed.

Lemma scan_step_progress lines folder_name st l :
  lines !! cur st = Some l →
  stuck_line l = false →
  cur st < cur (scan_step lines folder_name st).
Proof.
  intros Hl Hstuck. rewrite (scan_step_rule _ _ _ _ Hl). cbn zeta.
  rewrite (drop_S _ _ _ Hl).
  destruct (rule_of (strip l)) eqn:Hr; cbn [cur]; try lia.
  - apply rule_of_quote_inv in Hr. cbn [quote_run]. rewrite Hr.
    cbn [length]. lia.
  - cbn [para_run]. rewrite (rule_para_break _ Hr).
    unfold stuck_line in Hstuck. rewrite (rule_para_image _ Hr) in Hstuck.
    rewrite (bool_decide_eq_true_2 (None = None)) in Hstuck by done.
    rewrite andb_true_r in Hstuck. rewrite Hstuck. cbn [length]. lia.
Qed.

(** The cursor does not pass a line at which both inner loops stop. *)
Lemma scan_step_barrier lines folder_name st l j lj :
  lines !! cur st = Some l →
  cur st < j →
  lines !! j = Some lj →
  para_break (strip lj) = true →
  (is_quote_line lj = true →
   ∃ lp, lines !! (j - 1) = Some lp ∧ is_quote_line lp = false) →
  cur (scan_step lines folder_name st) ≤ j.
Proof.
  intros Hl Hlt Hj Hbreak Hleft. rewrite (scan_step_rule _ _ _ _ Hl). cbn zeta.
  destruct (rule_of (strip l)) eqn:Hr; cbn [cur]; try lia.
  - destruct (is_quote_line lj) eqn:Hq.
    + destruct (Hleft eq_refl) as (lp & Hp & Hpq).
      assert (cur st ≤ j - 1) as Hle by lia.
      assert (length (quote_run (drop (cur st) lines)) ≤ j - 1 - cur st); [|lia].
      eapply quote_run_length_le; [|done].
      rewrite lookup_drop. by replace (cur st + (j - 1 - cur st)) with (j - 1) by lia.
    + assert (length (quote_run (drop (cur st) lines)) ≤ j - cur st); [|lia].
      eapply quote_run_length_le; [|done].
      rewrite lookup_drop. by replace (cur st + (j - cur st)) with j by lia.
  - assert (length (para_run (drop (cur st) lines)) ≤ j - cur st); [|lia].
    eapply para_run_length_le; [|done].
    rewrite lookup_drop. by replace (cur st + (j - cur st)) with j by lia.
Qed.

Lemma cursor_reaches lines folder_name j lj :
  lines !! j = Some lj →
  para_break (strip lj) = true →
  (is_quote_line lj = true → j = 0 ∨
   ∃ lp, lines !! (j - 1) = Some lp ∧ is_quote_line lp = false) →
  (∀ k l, k < j → lines !! k = Some l → stuck_line l = false) →
  ∃ st, reachable lines folder_name st ∧ cur st = j.
Proof.
  intros Hj Hbreak Hleft Hfree.
  assert (∀ d st, reachable lines folder_name st → cur st ≤ j → j - cur st ≤ d →
            ∃ st', reachable lines folder_name st' ∧ cur st' = j) as Hgo.
  { induction d as [|d IH]; intros st Hreach Hle Hd.
    - exists st. split; [done|lia].
    - destruct (decide (cur st = j)) as [Heq|Hne]; [by exists st|].
      assert (cur st < j) as Hlt by lia.
      assert (cur st < length lines) as Hlen.
      { apply lookup_lt_Some in Hj. lia. }
      destruct (lookup_lt_is_Some_2 lines (cur st) Hlen) as [l Hl].
      apply (IH (scan_step lines folder_name st)).
      + by constructor.
      + eapply scan_step_barrier; try done.
        intros Hq. destruct (Hleft Hq) as [->|?]; [lia|done].
      + pose proof (scan_step_progress lines folder_name st l Hl
                      (Hfree _ _ Hlt Hl)). lia. }
  apply (Hgo j scan_init); [constructor|simpl; lia|simpl; lia].
Qed.

(** ** The list flag *)


(** ** Where the cursor can stand *)

Lemma scan_step_monotone lines folder_name st l :
  lines !! cur st = Some l → cur st ≤ cur (scan_step lines folder_name st).
Proof.
  intros Hl. rewrite (scan_step_rule _ _ _ _ Hl). cbn zeta.
  destruct (rule_of (strip l)); cbn [cur]; lia.
Qed.









(** ** Runs of list items *)




Lemma scan_loop_exit fuel lines folder_name st :
  length lines ≤ cur st →
  scan_loop fuel lines folder_name st = Some (close_list st).
Proof.
  intros Hle. destruct fuel; cbn [scan_loop];
    by rewrite (proj2 (Nat.ltb_ge _ _) Hle).
Qed.


(** ** Runs of blockquote lines *)




(** The example of the specification, run through the whole function. *)
Example list_of_two_items :
  txt_to_html_content 4 ("- a" +:+ nl +:+ "- b" +:+ nl +:+ nl +:+ "Tekst.") "vodic"
  = Some (join nl ["        <ul>"; "          <li>a</li>"; "          <li>b</li>";
                   "        </ul>"; "        <p>Tekst.</p>"]).
Proof. vm_compute. reflexivity. Qed.



(** The example of the specification, run through the whole function. *)
Example blockquote_of_two_lines :
  txt_to_html_content 1 ("> a" +:+ nl +:+ "> b") "vodic"
  = Some (join nl ["        <blockquote>"; "          a b";
                   "        </blockquote>"]).
Proof. vm_compute. reflexivity. Qed.

(** ** Strings *)

#[local] Arguments is_space : simpl never.

Lemma string_app_cons x (a b : string) : String x a +:+ b = String x (a +:+ b).
Proof. reflexivity. Qed.

Lemma string_app_nil_l (b : string) : "" +:+ b = b.
Proof. reflexivity. Qed.

Lemma string_app_assoc (a b c : string) : (a +:+ b) +:+ c = a +:+ (b +:+ c).
Proof.
  induction a as [|x a IH]; [done|]. by rewrite !string_app_cons, IH.
Qed.

Lemma string_app_nil_r (a : string) : a +:+ "" = a.
Proof. induction a as [|x a IH]; [done|]. by rewrite string_app_cons, IH. Qed.

Lemma string_length_app (a b : string) :
  String.length (a +:+ b) = String.length a + String.length b.
Proof.
  induction a as [|x a IH]; [done|]. rewrite string_app_cons. simpl.
  by rewrite IH.
Qed.

Lemma take_chars_app (a b : string) : take_chars (String.length a) (a +:+ b) = a.
Proof.
  induction a as [|x a IH]; [by destruct b|]. rewrite string_app_cons. simpl.
  by rewrite IH.
Qed.

Lemma consumed_app (a b : string) : consumed (a +:+ b) b = a.
Proof.
  unfold consumed. rewrite string_length_app.
  replace (String.length a + String.length b - String.length b)
    with (String.length a) by lia.
  apply take_chars_app.
Qed.

Lemma all_chars_app p a b :
  all_chars p (a +:+ b) = all_chars p a && all_chars p b.
Proof.
  induction a as [|x a IH]; [done|]. rewrite string_app_cons. simpl.
  by rewrite IH, andb_assoc.
Qed.

Lemma all_chars_impl (p q : ascii → bool) s :
  (∀ c, p c = true → q c = true) → all_chars p s = true → all_chars q s = true.
Proof.
  intros Hpq. induction s as [|x s IH]; simpl; [done|].
  intros [Hx Hs]%andb_true_iff. by rewrite (Hpq _ Hx), IH.
Qed.

(** ** The quantifiers *)

Section Quantifiers.
Context {R : Type}.
Implicit Types k : string → option R.

(** A lazy plus stops at the first place where the rest of the pattern
    matches. *)
Lemma plus_lazy_first p pre s k r :
  pre ≠ "" →
  all_chars p pre = true →
  (∀ a b, pre = a +:+ b → a ≠ "" → b ≠ "" → k (b +:+ s) = None) →
  k s = Some r →
  plus_lazy p (pre +:+ s) k = Some r.
Proof.
  intros Hne Hall Hfail Hk. induction pre as [|c pre IH]; [done|].
  simpl in Hall. apply andb_true_iff in Hall as [Hc Hall].
  rewrite string_app_cons. cbn [plus_lazy]. rewrite Hc.
  destruct pre as [|c' pre].
  - rewrite string_app_nil_l. by rewrite Hk.
  - rewrite (Hfail (String c "") (String c' pre)); [|done..].
    apply IH; [done|done|].
    intros a b Hab Ha Hb. apply (Hfail (String c a) b); [|done..].
    by rewrite Hab.
Qed.


(** A greedy star that meets no blank hands over at once. *)
Lemma star_greedy_none s k :
  (∀ c t, s = String c t → is_space c = false) →
  star_greedy is_space s k = k s.
Proof.
  intros Hs. destruct s as [|c t]; [done|]. cbn [star_greedy].
  by rewrite (Hs c t eq_refl).
Qed.

(** A greedy star keeps the longest stretch when the rest matches there. *)
Lemma star_greedy_all w s k r :
  all_chars is_space w = true →
  (∀ c t, s = String c t → is_space c = false) →
  k s = Some r →
  star_greedy is_space (w +:+ s) k = Some r.
Proof.
  intros Hw Hs Hk. induction w as [|x w IH].
  - rewrite string_app_nil_l. by rewrite star_greedy_none.
  - simpl in Hw. apply andb_true_iff in Hw as [Hx Hw].
    rewrite string_app_cons. cbn [star_greedy]. rewrite Hx. by rewrite IH.
Qed.
End Quantifiers.

(** ** The image pattern *)



















(** ** The image rule of the scanner *)








(** ** Substitution *)

Section Substitution.
Context (r : regex) (repl : caps → string).

Lemma sub_from_fuel f1 : ∀ f2 s,
  String.length s ≤ f1 → String.length s ≤ f2 →
  sub_from f1 r repl s = sub_from f2 r repl s.
Proof.
  induction f1 as [|f1 IH]; intros f2 s H1 H2.
  - destruct s; [|simpl in H1; lia]. by destruct f2.
  - destruct f2 as [|f2]; [destruct s; [done|simpl in H2; lia]|].
    destruct s as [|c s]; [done|]. cbn [sub_from].
    simpl in H1, H2.
    destruct (re_match r (String c s)) as [[rest g]|].
    + destruct (String.length rest <? String.length (String c s)) eqn:Hlt.
      * apply Nat.ltb_lt in Hlt. simpl in Hlt.
        f_equal. apply IH; lia.
      * f_equal. apply IH; lia.
    + f_equal. apply IH; lia.
Qed.

Lemma re_sub_nil : re_sub r repl "" = "".
Proof. reflexivity. Qed.

Lemma re_sub_head_none c s :
  re_match r (String c s) = None →
  re_sub r repl (String c s) = String c (re_sub r repl s).
Proof.
  intros Hm. unfold re_sub. cbn [String.length sub_from]. by rewrite Hm.
Qed.

Lemma re_sub_head_match s rest g :
  re_match r s = Some (rest, g) →
  String.length rest < String.length s →
  re_sub r repl s = repl g +:+ re_sub r repl rest.
Proof.
  intros Hm Hlt. unfold re_sub. destruct s as [|c s]; [simpl in Hlt; lia|].
  cbn [String.length sub_from]. rewrite Hm. simpl in Hlt.
  rewrite (proj2 (Nat.ltb_lt _ _) Hlt). f_equal.
  apply sub_from_fuel; [lia|done].
Qed.
End Substitution.

(** ** The three passes of the inline formatter *)

Lemma re_sub_skip r repl d pre s :
  (∀ c t, c ≠ d → re_match r (String c t) = None) →
  all_chars (other_than d) pre = true →
  re_sub r repl (pre +:+ s) = pre +:+ re_sub r repl s.
Proof.
  intros Hhead Hpre. induction pre as [|c pre IH]; [done|].
  simpl in Hpre. apply andb_true_iff in Hpre as [Hc Hpre].
  rewrite !string_app_cons. rewrite re_sub_head_none.
  - by rewrite IH.
  - apply Hhead. unfold other_than in Hc.
    by apply negb_true_iff, Ascii.eqb_neq in Hc.
Qed.

Lemma bold_re_head c t : c ≠ "*"%char → re_match bold_re (String c t) = None.
Proof.
  intros Hc. unfold re_match, bold_re. cbn [run Str].
  apply Ascii.eqb_neq in Hc. rewrite Ascii.eqb_sym in Hc. by rewrite Hc.
Qed.

Lemma italic_re_head c t : c ≠ "*"%char → re_match italic_re (String c t) = None.
Proof.
  intros Hc. unfold re_match, italic_re. cbn [run Str].
  apply Ascii.eqb_neq in Hc. rewrite Ascii.eqb_sym in Hc. by rewrite Hc.
Qed.

Lemma link_re_head c t : c ≠ "["%char → re_match link_re (String c t) = None.
Proof.
  intros Hc. unfold re_match, link_re. cbn [run Str].
  apply Ascii.eqb_neq in Hc. rewrite Ascii.eqb_sym in Hc. by rewrite Hc.
Qed.

Lemma wordlike_nonempty s : wordlike s = true → s ≠ "".
Proof. by destruct s. Qed.

Lemma wordlike_all (q : ascii → bool) s :
  (∀ c, word_char c = true → q c = true) →
  wordlike s = true → all_chars q s = true.
Proof.
  unfold wordlike. intros Hq [_ Hall]%andb_true_iff.
  by eapply all_chars_impl.
Qed.

Lemma word_char_any c : word_char c = true → any c = true.
Proof. unfold word_char. by intros [[? _]%andb_true_iff _]%andb_true_iff. Qed.

Lemma word_char_star c : word_char c = true → other_than "*" c = true.
Proof. unfold word_char. by intros [[_ ?]%andb_true_iff _]%andb_true_iff. Qed.

Lemma word_char_bracket c : word_char c = true → other_than "[" c = true.
Proof. unfold word_char. by intros [_ ?]%andb_true_iff. Qed.

Lemma wordlike_head s a c b :
  wordlike s = true → s = a +:+ String c b → c ≠ "*"%char.
Proof.
  intros Hw ->. apply (wordlike_all _ _ word_char_star) in Hw.
  rewrite all_chars_app in Hw. apply andb_true_iff in Hw as [_ Hw].
  simpl in Hw. apply andb_true_iff in Hw as [Hc _].
  unfold other_than in Hc. by apply negb_true_iff, Ascii.eqb_neq in Hc.
Qed.

(** [**X**] at the head of the text is the bold match, with [X] as its
    group. *)
Lemma bold_re_match X tl :
  wordlike X = true →
  re_match bold_re ("**" +:+ X +:+ "**" +:+ tl) = Some (tl, {[1 := X]}).
Proof.
  intros Hw. unfold re_match, bold_re.
  change ("**" +:+ X +:+ "**" +:+ tl)
    with (String "*" (String "*" (X +:+ "**" +:+ tl))).
  cbn [run Str]. rewrite !Ascii.eqb_refl.
  apply plus_lazy_first.
  - by apply wordlike_nonempty.
  - by apply (wordlike_all _ _ word_char_any).
  - intros a b Hab Ha Hb. destruct b as [|c b]; [done|].
    rewrite string_app_cons.
    pose proof (wordlike_head _ _ _ _ Hw Hab) as Hc.
    apply Ascii.eqb_neq in Hc. rewrite Ascii.eqb_sym in Hc. by rewrite Hc.
  - rewrite consumed_app. reflexivity.
Qed.

Lemma italic_re_match Y tl :
  wordlike Y = true →
  re_match italic_re ("*" +:+ Y +:+ "*" +:+ tl) = Some (tl, {[1 := Y]}).
Proof.
  intros Hw. unfold re_match, italic_re.
  change ("*" +:+ Y +:+ "*" +:+ tl) with (String "*" (Y +:+ "*" +:+ tl)).
  cbn [run Str]. rewrite !Ascii.eqb_refl.
  apply plus_lazy_first.
  - by apply wordlike_nonempty.
  - by apply (wordlike_all _ _ word_char_any).
  - intros a b Hab Ha Hb. destruct b as [|c b]; [done|].
    rewrite string_app_cons.
    pose proof (wordlike_head _ _ _ _ Hw Hab) as Hc.
    apply Ascii.eqb_neq in Hc. rewrite Ascii.eqb_sym in Hc. by rewrite Hc.
  - rewrite consumed_app. reflexivity.
Qed.

(** A lone asterisk before a word is not the start of a bold span. *)
Lemma bold_re_single Y tl :
  wordlike Y = true → re_match bold_re ("*" +:+ Y +:+ tl) = None.
Proof.
  intros Hw. destruct Y as [|c Z]; [done|].
  pose proof (wordlike_head (String c Z) "" c Z Hw eq_refl) as Hc.
  unfold re_match, bold_re.
  change ("*" +:+ String c Z +:+ tl) with (String "*" (String c (Z +:+ tl))).
  cbn [run Str]. rewrite Ascii.eqb_refl.
  apply Ascii.eqb_neq in Hc. rewrite Ascii.eqb_sym in Hc. by rewrite Hc.
Qed.

Lemma length_lt_app (pre tl : string) :
  pre ≠ "" → String.length tl < String.length (pre +:+ tl).
Proof.
  intros Hne. rewrite string_length_app. destruct pre; [done|]. simpl. lia.
Qed.

(** The first pass: the bold span is replaced, the italic span is left
    alone. *)
Lemma bold_pass X Y :
  wordlike X = true → wordlike Y = true →
  re_sub bold_re bold_repl ("**" +:+ X +:+ "** and *" +:+ Y +:+ "*")
  = "<strong>" +:+ X +:+ "</strong> and *" +:+ Y +:+ "*".
Proof.
  intros HX HY.
  rewrite (re_sub_head_match _ _ _ (" and *" +:+ Y +:+ "*") {[1 := X]}).
  - change (bold_repl {[1 := X]}) with ("<strong>" +:+ X +:+ "</strong>").
    change (" and *" +:+ Y +:+ "*") with (" and " +:+ "*" +:+ Y +:+ "*").
    rewrite (re_sub_skip _ _ "*" " and "); [|apply bold_re_head|done].
    change ("*" +:+ Y +:+ "*") with (String "*" (Y +:+ "*")).
    rewrite re_sub_head_none by (by apply (bold_re_single Y "*")).
    rewrite (re_sub_skip _ _ "*" Y);
      [|apply bold_re_head|by apply (wordlike_all _ _ word_char_star)].
    change (re_sub bold_re bold_repl "*") with "*".
    rewrite !string_app_assoc. reflexivity.
  - by apply (bold_re_match X (" and *" +:+ Y +:+ "*")).
  - replace ("**" +:+ X +:+ "** and *" +:+ Y +:+ "*")
      with (("**" +:+ X +:+ "**") +:+ " and *" +:+ Y +:+ "*")
      by (by rewrite !string_app_assoc).
    by apply length_lt_app.
Qed.

(** The second pass. *)
Lemma italic_pass X Y :
  wordlike X = true → wordlike Y = true →
  re_sub italic_re italic_repl ("<strong>" +:+ X +:+ "</strong> and *" +:+ Y +:+ "*")
  = "<strong>" +:+ X +:+ "</strong> and <em>" +:+ Y +:+ "</em>".
Proof.
  intros HX HY.
  replace ("<strong>" +:+ X +:+ "</strong> and *" +:+ Y +:+ "*")
    with (("<strong>" +:+ X +:+ "</strong> and ") +:+ "*" +:+ Y +:+ "*" +:+ "")
    by (by rewrite !string_app_assoc).
  rewrite (re_sub_skip _ _ "*"); [|apply italic_re_head|].
  - rewrite (re_sub_head_match _ _ _ "" {[1 := Y]}).
    + change (italic_repl {[1 := Y]}) with ("<em>" +:+ Y +:+ "</em>").
      rewrite re_sub_nil, !string_app_assoc, string_app_nil_r. reflexivity.
    + by apply italic_re_match.
    + simpl. lia.
  - rewrite !all_chars_app.
    by rewrite (wordlike_all _ _ word_char_star HX).
Qed.

(** The third pass finds no bracket. *)
Lemma link_pass X Y :
  wordlike X = true → wordlike Y = true →
  re_sub link_re link_repl ("<strong>" +:+ X +:+ "</strong> and <em>" +:+ Y +:+ "</em>")
  = "<strong>" +:+ X +:+ "</strong> and <em>" +:+ Y +:+ "</em>".
Proof.
  intros HX HY.
  rewrite <- (string_app_nil_r ("<strong>" +:+ X +:+ "</strong> and <em>" +:+ Y +:+ "</em>")) at 1.
  rewrite (re_sub_skip _ _ "["); [|apply link_re_head|].
  - by rewrite re_sub_nil, string_app_nil_r.
  - rewrite !all_chars_app.
    by rewrite (wordlike_all _ _ word_char_bracket HX),
               (wordlike_all _ _ word_char_bracket HY).
Qed.

(** A bold span alone: its asterisks are gone after the first pass, and the
    second pass has nothing to take for italic markers. *)
Lemma bold_alone X :
  wordlike X = true →
  inline_format ("**" +:+ X +:+ "**") = "<strong>" +:+ X +:+ "</strong>".
Proof.
  intros HX. unfold inline_format.
  assert (re_sub bold_re bold_repl ("**" +:+ X +:+ "**")
          = "<strong>" +:+ X +:+ "</strong>") as ->.
  { rewrite (re_sub_head_match _ _ _ "" {[1 := X]}).
    - change (bold_repl {[1 := X]}) with ("<strong>" +:+ X +:+ "</strong>").
      by rewrite re_sub_nil, !string_app_assoc, string_app_nil_r.
    - by apply (bold_re_match X "").
    - replace ("**" +:+ X +:+ "**") with (("**" +:+ X +:+ "**") +:+ "")
        by apply string_app_nil_r.
      by apply length_lt_app. }
  assert (re_sub italic_re italic_repl ("<strong>" +:+ X +:+ "</strong>")
          = "<strong>" +:+ X +:+ "</strong>") as ->.
  { rewrite <- (string_app_nil_r ("<strong>" +:+ X +:+ "</strong>")) at 1.
    rewrite (re_sub_skip _ _ "*"); [|apply italic_re_head|].
    - by rewrite re_sub_nil, string_app_nil_r.
    - rewrite !all_chars_app.
      by rewrite (wordlike_all _ _ word_char_star HX). }
  rewrite <- (string_app_nil_r ("<strong>" +:+ X +:+ "</strong>")) at 1.
  rewrite (re_sub_skip _ _ "["); [|apply link_re_head|].
  - by rewrite re_sub_nil, string_app_nil_r.
  - rewrite !all_chars_app.
    by rewrite (wordlike_all _ _ word_char_bracket HX).
Qed.

(** ** Termination of the scanner *)



(** ** The order of the dates *)

Lemma ascii_compare_lt_trans a b c :
  Ascii.compare a b = Lt → Ascii.compare b c = Lt → Ascii.compare a c = Lt.
Proof.
  unfold Ascii.compare. rewrite !N.compare_lt_iff. lia.
Qed.

Lemma string_compare_lt_trans a : ∀ b c,
  String.compare a b = Lt → String.compare b c = Lt → String.compare a c = Lt.
Proof.
  induction a as [|x a IH]; intros [|y b] [|z c]; simpl; try done.
  destruct (Ascii.compare x y) eqn:Hxy; try done;
    destruct (Ascii.compare y z) eqn:Hyz; try done.
  - apply Ascii.compare_eq_iff in Hxy as ->, Hyz as ->.
    rewrite (proj2 (N.compare_eq_iff _ _) eq_refl : Ascii.compare z z = Eq).
    apply IH.
  - apply Ascii.compare_eq_iff in Hxy as ->. by rewrite Hyz.
  - apply Ascii.compare_eq_iff in Hyz as <-. by rewrite Hxy.
  - by rewrite (ascii_compare_lt_trans _ _ _ Hxy Hyz).
Qed.

Lemma string_ltb_neg_trans a b c :
  String.ltb a b = false → String.ltb b c = false → String.ltb a c = false.
Proof.
  unfold String.ltb. intros Hab Hbc.
  destruct (String.compare a c) eqn:Hac; try done. exfalso.
  destruct (String.compare a b) eqn:Hab'; try done.
  - apply String.compare_eq_iff in Hab' as ->. by rewrite Hac in Hbc.
  - rewrite String.compare_antisym in Hab'.
    destruct (String.compare b a) eqn:Hba; try done.
    by rewrite (string_compare_lt_trans _ _ _ Hba Hac) in Hbc.
Qed.

Section SortAgain.
Context {A : Type} (key : A → string).

#[local] Instance ge_key_trans : Transitive (ge_key key).
Proof. intros x y z. unfold ge_key. apply string_ltb_neg_trans. Qed.

Lemma insert_desc_head x l :
  Forall (ge_key key x) l → insert_desc key x l = x :: l.
Proof.
  destruct l as [|y l]; [done|]. intros [Hy _]%Forall_cons. simpl.
  unfold ge_key in Hy. by rewrite Hy.
Qed.

Lemma sort_desc_id l : Sorted (ge_key key) l → sort_desc key l = l.
Proof.
  induction 1 as [|x l Hs IH Hhd]; [done|]. simpl. rewrite IH.
  destruct Hhd as [|y l Hxy]; [done|]. simpl. unfold ge_key in Hxy.
  by rewrite Hxy.
Qed.

Lemma insert_desc_filter (P : A → Prop) `{!∀ x, Decision (P x)} x l :
  Sorted (ge_key key) l →
  filter P (insert_desc key x l)
  = if decide (P x) then insert_desc key x (filter P l) else filter P l.
Proof.
  intros Hs. apply Sorted_StronglySorted in Hs; [|apply _].
  induction Hs as [|y l Hs IH Hall]; simpl.
  - rewrite filter_cons. by destruct (decide (P x)).
  - destruct (String.ltb (key x) (key y)) eqn:Hxy.
    + rewrite !filter_cons, IH.
      destruct (decide (P x)), (decide (P y)); simpl; try done.
      by rewrite Hxy.
    + rewrite filter_cons. destruct (decide (P x)); [|done].
      rewrite insert_desc_head; [done|].
      apply Forall_forall. intros z [_ Hz]%list_elem_of_filter.
      apply elem_of_cons in Hz as [->|Hz]; [done|].
      rewrite Forall_forall in Hall. etrans; [done|]. by apply Hall.
Qed.

Lemma sort_desc_filter (P : A → Prop) `{!∀ x, Decision (P x)} l :
  filter P (sort_desc key l) = sort_desc key (filter P l).
Proof.
  induction l as [|x l IH]; [done|]. simpl.
  rewrite insert_desc_filter by apply sort_desc_sorted.
  rewrite filter_cons, IH. by destruct (decide (P x)).
Qed.

Lemma sort_desc_app_sorted l1 l2 :
  sort_desc key (l1 ++ sort_desc key l2) = sort_desc key (l1 ++ l2).
Proof.
  induction l1 as [|x l1 IH]; simpl.
  - apply sort_desc_id, sort_desc_sorted.
  - by rewrite IH.
Qed.
End SortAgain.

(** ** Merging twice *)

Lemma filter_none {A} (P : A → Prop) `{!∀ x, Decision (P x)} (l : list A) :
  (∀ x, x ∈ l → ¬ P x) → filter P l = [].
Proof.
  induction l as [|x l IH]; [done|]. intros Hno. rewrite filter_cons.
  rewrite decide_False by (apply Hno; left). apply IH. intros y Hy.
  apply Hno. by right.
Qed.

Lemma filter_filter_same {A} (P : A → Prop) `{!∀ x, Decision (P x)} (l : list A) :
  filter P (filter P l) = filter P l.
Proof.
  induction l as [|x l IH]; [done|]. rewrite filter_cons.
  destruct (decide (P x)) as [Hx|Hx]; [|done].
  by rewrite filter_cons, decide_True, IH.
Qed.

(** When the slug of every record of the batch is in the set the merge
    works with, merging the batch with the result of the merge gives that
    result again. *)
Theorem merge_catalog_idempotent
    (batch : list post) (G : gset string) (persisted : list post) :
  (∀ p, p ∈ batch → post_slug p ∈ G) →
  merge_catalog batch G (merge_catalog batch G persisted)
  = merge_catalog batch G persisted.
Proof.
  intros Hbatch. unfold merge_catalog at 1 3.
  unfold merge_catalog. rewrite sort_desc_filter, filter_app.
  rewrite (filter_none _ batch); [|by intros p Hp Hn; apply Hn, Hbatch].
  rewrite filter_filter_same. simpl. apply sort_desc_app_sorted.
Qed.

(** ** A second run over folders with plain names *)

Lemma startswith_before_dot p : ∀ s t,
  all_chars (other_than ".") p = true →
  startswith p (s +:+ String "." t) = startswith p s.
Proof.
  induction p as [|a p IH]; intros s t Hp; [by destruct s|].
  simpl in Hp. apply andb_true_iff in Hp as [Ha Hp].
  destruct s as [|b s].
  - rewrite string_app_nil_l. cbn [startswith].
    unfold other_than in Ha. apply negb_true_iff in Ha. by rewrite Ha.
  - rewrite string_app_cons. cbn [startswith]. by rewrite IH.
Qed.

Lemma startswith_html_app c s :
  startswith ".html" (String c (s +:+ ".html")) = startswith ".html" (String c s).
Proof.
  cbn [startswith]. f_equal. by apply (startswith_before_dot "html").
Qed.

Lemma remove_all_html_suffix folder_name :
  contains ".html" folder_name = false →
  remove_all ".html" (folder_name +:+ ".html") = folder_name.
Proof.
  unfold remove_all. induction folder_name as [|c s IH]; [done|].
  cbn [contains]. intros [Hc Hs]%orb_false_iff.
  rewrite string_app_cons. cbn [remove_all_from].
  rewrite startswith_html_app, Hc. f_equal. by apply IH.
Qed.

(** ** The slug of a persisted record *)

Lemma take_drop_chars n s : take_chars n s +:+ drop_chars n s = s.
Proof.
  revert s. induction n as [|n IH]; intros [|c s]; try done.
  cbn [take_chars drop_chars]. by rewrite string_app_cons, IH.
Qed.

Lemma remove_all_absent old s :
  contains old s = false → remove_all old s = s.
Proof.
  unfold remove_all. induction s as [|c s IH]; [done|].
  cbn [contains]. intros [Hc Hs]%orb_false_iff.
  cbn [remove_all_from]. by rewrite Hc, IH.
Qed.

Lemma file_stem_html f :
  ends_with ".html" f = true → f = file_stem f +:+ ".html".
Proof.
  intros He. unfold file_stem. rewrite He. unfold ends_with in He.
  apply andb_true_iff in He as [_ He]. apply String.eqb_eq in He.
  change (String.length ".html") with 5 in He.
  rewrite <- (take_drop_chars (String.length f - 5) f) at 1.
  by rewrite He.
Qed.

(** For a file name that holds [.html] nowhere but as its extension, what
    the script computes with [replace] is the base name of the file. *)
Lemma post_slug_record_slug ep :
  plain_file_name ep = true → post_slug ep = record_slug ep.
Proof.
  unfold plain_file_name, post_slug, record_slug.
  intros Hp%negb_true_iff.
  destruct (ends_with ".html" (default "" (p_file ep))) eqn:He.
  - rewrite (file_stem_html _ He) at 1. by apply remove_all_html_suffix.
  - unfold file_stem in *. rewrite He in *. by apply remove_all_absent.
Qed.

Lemma filter_slug_ext (G : gset string) (l : list post) :
  Forall (λ ep, plain_file_name ep = true) l →
  filter (λ ep, post_slug ep ∉ G) l = filter (λ ep, record_slug ep ∉ G) l.
Proof.
  induction 1 as [|ep l Hep _ IH]; [done|].
  rewrite !filter_cons, IH, (post_slug_record_slug _ Hep). done.
Qed.

(** C2, amended. When the folder loop completes, the set [G] the merge
    works with is the set of the names of all folders the loop visited
    (a directory with a [sadrzaj.txt] and an admissible name), whether or
    not a record was generated for them. When no persisted file name holds
    [.html] before its extension, the catalog is the batch followed by the
    persisted records whose slug, the base name of their file, is not in
    [G], sorted by date in descending order: a permutation of these
    records, sorted, in which the records of one date stand in the order
    batch first, carried-over second, each group in its original order. *)
Theorem catalog_keeps_records_of_unvisited_slugs
    (fuel : nat) (blog_dir : list dir_entry) (posts_json : catalog_file)
    (st : build_state) :
  scan_folders fuel blog_dir build_init = Done st →
  Forall (λ ep, plain_file_name ep = true) (load_existing posts_json) →
  let G : gset string :=
    list_to_set (name <$> filter (λ item, visited item = true) blog_dir) in
  let kept := filter (λ ep, record_slug ep ∉ G) (load_existing posts_json) in
  generated_slugs st = G
  ∧ ∃ r,
      build_blog fuel blog_dir posts_json = Done r
      ∧ catalog r = sort_desc post_date (posts st ++ kept)
      ∧ catalog r ≡ₚ posts st ++ kept
      ∧ Sorted (ge_key post_date) (catalog r)
      ∧ ∀ d,
          filter (λ p, post_date p = d) (catalog r)
          = filter (λ p, post_date p = d) (posts st)
            ++ filter (λ p, post_date p = d) kept.
Proof.
  intros Hscan Hplain G kept.
  assert (generated_slugs st = G) as HG.
  { apply scan_folders_slugs in Hscan. rewrite Hscan. simpl.
    by rewrite union_empty_l_L. }
  split; [done|].
  unfold build_blog. rewrite Hscan. simpl. eexists. split; [done|]. simpl.
  unfold merge_catalog. rewrite HG, (filter_slug_ext G _ Hplain). fold kept.
  split_and!.
  - done.
  - apply sort_desc_perm.
  - apply (sort_desc_sorted post_date).
  - intros d. by rewrite sort_desc_stable, filter_app.
Qed.

Lemma catalog_keeps_records_of_unvisited_slugs_witness :
  ∃ r, build_blog 1 [broken_folder; good_folder] (Parsed [legacy_record]) = Done r
       ∧ length (catalog r) = 1.
Proof.
  destruct (catalog_keeps_records_of_unvisited_slugs 1
              [broken_folder; good_folder] (Parsed [legacy_record])
              (BuildState
                 [Post (Some "vodic.html") (Some "Vodic") (Some "")
                       (Some "2026-02-20") (Some "../img.png") (Some "Članak")]
                 {["legacy-post"; "vodic"]}
                 [("vodic.html",
                   HtmlPage "Vodic" "" "2026-02-20" "Članak" "vodic"
                     "20. veljače 2026." "" "https://tenderatlas.hr/img.png"
                     "        <p>Tekst.</p>")]
                 [MsgBuilding "legacy-post"; MsgNoSeparator "legacy-post";
                  MsgBuilding "vodic"; MsgGenerated "vodic"]))
    as (_ & r & Hr & Hc & _).
  - vm_compute. reflexivity.
  - repeat constructor.
  - exists r. split; [exact Hr|]. rewrite Hc. vm_compute. reflexivity.
Defined.

(** C2 as stated fails: the folder [legacy-post] is visited but has no
    separator, so the batch is empty; the old record of that slug is
    dropped by the build, while the merge over the slugs of the batch
    would keep it. *)
Lemma batch_slug_merge_counterexample :
  ∃ st r,
    scan_folders 1 [broken_folder] build_init = Done st
    ∧ build_blog 1 [broken_folder] (Parsed [legacy_record]) = Done r
    ∧ posts st = []
    ∧ catalog r = []
    ∧ merge_by_batch_slugs (posts st) [legacy_record] = [legacy_record]
    ∧ catalog r ≠ merge_by_batch_slugs (posts st) [legacy_record].
Proof.
  eexists. eexists. split; [vm_compute; reflexivity|].
  split; [vm_compute; reflexivity|]. simpl.
  split; [done|]. split; [done|]. split; [vm_compute; reflexivity|].
  vm_compute. discriminate.
Qed.

(** ** The slugs of the batch *)

Lemma build_folder_batch_slugs fuel item st st' :
  (visited item = true → contains ".html" (name item) = false) →
  batch_slugs_known st →
  build_folder fuel item st = Done st' →
  batch_slugs_known st'.
Proof.
  intros Hname Hinv. destruct (visited item) eqn:Hv.
  - specialize (Hname eq_refl).
    apply visited_true in Hv as (Hd & Hn & [raw Hraw]).
    unfold build_folder. rewrite Hd, Hn, Hraw. cbn [negb].
    assert (∀ p, p ∈ posts st →
              post_slug p ∈ generated_slugs st ∪ {[name item]}) as Hold.
    { intros p Hp. apply elem_of_union_l. by apply Hinv. }
    destruct (contains "---" raw); [|by intros [= <-]].
    destruct (split_once "---" raw) as [[h b]|]; [|by intros [= <-]].
    destruct (is_empty _); [by intros [= <-]|].
    destruct (txt_to_html_content _ _ _); [|done].
    destruct (generate_html _ _ _); simpl; [|done..].
    intros [= <-] p. cbn [posts generated_slugs].
    intros [Hp|Hp]%elem_of_app; [by apply Hold|].
    apply list_elem_of_singleton in Hp as ->.
    change (post_slug _) with (remove_all ".html" (name item +:+ ".html")).
    rewrite remove_all_html_suffix by done.
    apply elem_of_union_r. by apply elem_of_singleton.
  - rewrite build_folder_not_visited by done. by intros [= <-].
Qed.

Lemma scan_folders_batch_slugs fuel items : ∀ st st',
  (∀ item, item ∈ items → visited item = true →
           contains ".html" (name item) = false) →
  batch_slugs_known st →
  scan_folders fuel items st = Done st' →
  batch_slugs_known st'.
Proof.
  induction items as [|item items IH]; intros st st' Hnames Hinv; simpl.
  - by intros [= <-].
  - destruct (build_folder fuel item st) as [st1| |] eqn:Hb; simpl; [|done..].
    apply IH.
    + intros i Hi. apply Hnames. by right.
    + eapply build_folder_batch_slugs; [|done..]. apply Hnames. by left.
Qed.

(** X19. When no visited folder has [.html] in its name, a run that completes
    is followed, on the same folders and the catalog it wrote, by a run
    with the same files, the same catalog and the same output. *)
Theorem second_run_same_for_plain_names
    (fuel : nat) (blog_dir : list dir_entry) (posts_json : catalog_file)
    (r : build_result) :
  (∀ item, item ∈ blog_dir → visited item = true →
           contains ".html" (name item) = false) →
  build_blog fuel blog_dir posts_json = Done r →
  build_blog fuel blog_dir (Parsed (catalog r)) = Done r.
Proof.
  intros Hnames. unfold build_blog.
  destruct (scan_folders fuel blog_dir build_init) as [st| |] eqn:Hscan;
    simpl; [|done..].
  intros [= <-]. cbn [catalog].
  rewrite merge_catalog_idempotent; [done|].
  eapply scan_folders_batch_slugs; [done| |done].
  by intros p Hp%elem_of_nil.
Qed.

(** * Further properties *)

(** ** The inline formatter on plain text, links and stray asterisks *)

Lemma markup_free_star s :
  markup_free s = true → all_chars (other_than "*") s = true.
Proof.
  apply all_chars_impl. unfold markup_free_char. intros c.
  by intros [? _]%andb_true_iff.
Qed.

Lemma markup_free_bracket s :
  markup_free s = true → all_chars (other_than "[") s = true.
Proof.
  apply all_chars_impl. unfold markup_free_char. intros c.
  by intros [_ ?]%andb_true_iff.
Qed.

Lemma re_sub_untouched r repl d s :
  (∀ c t, c ≠ d → re_match r (String c t) = None) →
  all_chars (other_than d) s = true →
  re_sub r repl s = s.
Proof.
  intros Hhead Hs. rewrite <- (string_app_nil_r s) at 1.
  rewrite (re_sub_skip r repl d s "" Hhead Hs).
  by rewrite re_sub_nil, string_app_nil_r.
Qed.

(** X1. A text without asterisk and opening bracket goes through
    [inline_format] unchanged; in particular nothing is escaped: [<], [>]
    and [&] reach the page as they are. *)
Theorem inline_format_plain_text (s : string) :
  markup_free s = true → inline_format s = s.
Proof.
  intros Hs. unfold inline_format.
  rewrite (re_sub_untouched bold_re bold_repl "*" s bold_re_head)
    by by apply markup_free_star.
  rewrite (re_sub_untouched italic_re italic_repl "*" s italic_re_head)
    by by apply markup_free_star.
  apply (re_sub_untouched link_re link_repl "[" s link_re_head).
  by apply markup_free_bracket.
Qed.

Lemma inline_format_plain_text_witness :
  inline_format "Cijena < 5 & <b>rok</b> (2026)" = "Cijena < 5 & <b>rok</b> (2026)".
Proof. apply inline_format_plain_text. reflexivity. Defined.

Section Greedy.
Context {R : Type}.

(** A greedy star keeps the longest stretch of the class when the rest of
    the pattern matches behind it. *)
Lemma star_greedy_longest p w s (k : string → option R) r :
  all_chars p w = true →
  (∀ c t, s = String c t → p c = false) →
  k s = Some r →
  star_greedy p (w +:+ s) k = Some r.
Proof.
  intros Hw Hs Hk. induction w as [|x w IH].
  - rewrite string_app_nil_l. destruct s as [|c t]; [done|].
    cbn [star_greedy]. by rewrite (Hs c t eq_refl).
  - simpl in Hw. apply andb_true_iff in Hw as [Hx Hw].
    rewrite string_app_cons. cbn [star_greedy]. rewrite Hx. by rewrite IH.
Qed.

Lemma plus_greedy_longest p w s (k : string → option R) r :
  w ≠ "" →
  all_chars p w = true →
  (∀ c t, s = String c t → p c = false) →
  k s = Some r →
  plus_greedy p (w +:+ s) k = Some r.
Proof.
  intros Hne Hw Hs Hk. destruct w as [|x w]; [done|].
  simpl in Hw. apply andb_true_iff in Hw as [Hx Hw].
  rewrite string_app_cons. cbn [plus_greedy]. rewrite Hx.
  by apply star_greedy_longest.
Qed.

Lemma group_greedy n p w s g (k : string → caps → option R) r :
  w ≠ "" →
  all_chars p w = true →
  (∀ c t, s = String c t → p c = false) →
  k s (<[n := w]> g) = Some r →
  run (Grp n (PlusG p)) (w +:+ s) g k = Some r.
Proof.
  intros Hne Hw Hs Hk. cbn [run]. apply plus_greedy_longest; try done.
  cbv beta. by rewrite consumed_app.
Qed.
End Greedy.

Lemma link_label_nonempty s : link_label s = true → s ≠ "".
Proof. by destruct s. Qed.

Lemma link_target_nonempty s : link_target s = true → s ≠ "".
Proof. by destruct s. Qed.

Lemma link_label_all (q : ascii → bool) s :
  (∀ c, label_char c = true → q c = true) →
  link_label s = true → all_chars q s = true.
Proof.
  unfold link_label. intros Hq [_ Hall]%andb_true_iff.
  by eapply all_chars_impl.
Qed.

Lemma link_target_all (q : ascii → bool) s :
  (∀ c, target_char c = true → q c = true) →
  link_target s = true → all_chars q s = true.
Proof.
  unfold link_target. intros Hq [_ Hall]%andb_true_iff.
  by eapply all_chars_impl.
Qed.

(** [[T](U)] at the head of the text is the link match, with [T] and [U] as
    its groups. *)
Lemma link_re_match T U tl :
  link_label T = true → link_target U = true →
  re_match link_re ("[" +:+ T +:+ "](" +:+ U +:+ ")" +:+ tl)
  = Some (tl, <[2 := U]> {[1 := T]}).
Proof.
  intros HT HU.
  assert (run (Cat (Grp 2 (PlusG (other_than ")"))) (Chr ")"))
            (U +:+ ")" +:+ tl) {[1 := T]} K0
          = Some (tl, <[2 := U]> {[1 := T]})) as H2.
  { cbn [run]. apply plus_greedy_longest.
    - by apply link_target_nonempty.
    - apply (link_target_all (other_than ")")) in HU; [done|].
      unfold target_char. by intros c [_ ?]%andb_true_iff.
    - by intros c t [= <- _].
    - cbv beta. by rewrite consumed_app. }
  unfold re_match, link_re. fold K0.
  change ("[" +:+ T +:+ "](" +:+ U +:+ ")" +:+ tl)
    with (String "[" (T +:+ "](" +:+ U +:+ ")" +:+ tl)).
  cbn [run Str]. rewrite Ascii.eqb_refl.
  apply plus_greedy_longest.
  - by apply link_label_nonempty.
  - apply (link_label_all (other_than "]")) in HT; [done|].
    unfold label_char. by intros c [_ ?]%andb_true_iff.
  - by intros c t [= <- _].
  - cbv beta. rewrite consumed_app.
    change ("](" +:+ U +:+ ")" +:+ tl)
      with (String "]" (String "(" (U +:+ ")" +:+ tl))).
    cbn iota. rewrite !Ascii.eqb_refl. cbn [run] in H2. exact H2.
Qed.

Lemma label_char_free c : label_char c = true → markup_free_char c = true.
Proof. unfold label_char. by intros [? _]%andb_true_iff. Qed.

Lemma target_char_free c : target_char c = true → markup_free_char c = true.
Proof. unfold target_char. by intros [? _]%andb_true_iff. Qed.

Lemma markup_free_char_star c :
  markup_free_char c = true → other_than "*" c = true.
Proof. unfold markup_free_char. by intros [? _]%andb_true_iff. Qed.

(** X2. A link [[T](U)] between two texts without markup becomes
    [<a href="U">T</a>], and the texts around it stay as they are. *)
Theorem inline_format_link (pre T U post : string) :
  markup_free pre = true →
  link_label T = true →
  link_target U = true →
  markup_free post = true →
  inline_format (pre +:+ "[" +:+ T +:+ "](" +:+ U +:+ ")" +:+ post)
  = pre +:+ "<a href=" +:+ dq +:+ U +:+ dq +:+ ">" +:+ T +:+ "</a>" +:+ post.
Proof.
  intros Hpre HT HU Hpost. unfold inline_format.
  assert (all_chars (other_than "*")
            (pre +:+ "[" +:+ T +:+ "](" +:+ U +:+ ")" +:+ post) = true) as Hstar.
  { rewrite !all_chars_app.
    rewrite (markup_free_star _ Hpre), (markup_free_star _ Hpost).
    rewrite (link_label_all (other_than "*") T), (link_target_all (other_than "*") U);
      [reflexivity| |done| |done].
    - intros c Hc. by apply markup_free_char_star, target_char_free.
    - intros c Hc. by apply markup_free_char_star, label_char_free. }
  rewrite (re_sub_untouched bold_re bold_repl "*" _ bold_re_head Hstar).
  rewrite (re_sub_untouched italic_re italic_repl "*" _ italic_re_head Hstar).
  rewrite (re_sub_skip link_re link_repl "[" pre _ link_re_head)
    by by apply markup_free_bracket.
  rewrite (re_sub_head_match _ _ _ post (<[2 := U]> {[1 := T]})).
  - rewrite (re_sub_untouched link_re link_repl "[" post link_re_head)
      by by apply markup_free_bracket.
    change (link_repl (<[2 := U]> {[1 := T]}))
      with ("<a href=" +:+ dq +:+ U +:+ dq +:+ ">" +:+ T +:+ "</a>").
    by rewrite !string_app_assoc.
  - by apply link_re_match.
  - replace ("[" +:+ T +:+ "](" +:+ U +:+ ")" +:+ post)
      with (("[" +:+ T +:+ "](" +:+ U +:+ ")") +:+ post)
      by (by rewrite !string_app_assoc).
    by apply length_lt_app.
Qed.

Lemma inline_format_link_witness :
  inline_format "Vidi [EOJN](https://eojn.hr/objave) za detalje."
  = "Vidi <a href=" +:+ dq +:+ "https://eojn.hr/objave" +:+ dq
    +:+ ">EOJN</a> za detalje.".
Proof.
  apply (inline_format_link "Vidi " "EOJN" "https://eojn.hr/objave"
           " za detalje."); reflexivity.
Defined.

(** An asterisk that has no partner is no markup. *)
Section Lazy.
Context {R : Type}.

Lemma plus_lazy_never p s (k : string → option R) :
  (∀ a t, s = a +:+ t → k t = None) → plus_lazy p s k = None.
Proof.
  induction s as [|c s IH]; intros Hk; [done|]. cbn [plus_lazy].
  destruct (p c); [|done].
  rewrite (Hk (String c "") s eq_refl). apply IH.
  intros a t ->. by apply (Hk (String c a) t).
Qed.
End Lazy.

Lemma bold_re_lone b :
  all_chars (other_than "*") b = true → re_match bold_re (String "*" b) = None.
Proof.
  intros Hb. unfold re_match, bold_re. cbn [run Str].
  rewrite Ascii.eqb_refl. destruct b as [|c b]; [done|].
  simpl in Hb. apply andb_true_iff in Hb as [Hc _].
  unfold other_than in Hc. apply negb_true_iff in Hc.
  rewrite Ascii.eqb_sym in Hc. by rewrite Hc.
Qed.

Lemma italic_re_lone b :
  all_chars (other_than "*") b = true → re_match italic_re (String "*" b) = None.
Proof.
  intros Hb. unfold re_match, italic_re. cbn [run Str].
  rewrite Ascii.eqb_refl. apply plus_lazy_never.
  intros a t ->. rewrite all_chars_app in Hb.
  apply andb_true_iff in Hb as [_ Ht]. destruct t as [|c t]; [done|].
  simpl in Ht. apply andb_true_iff in Ht as [Hc _].
  unfold other_than in Hc. apply negb_true_iff in Hc.
  rewrite Ascii.eqb_sym in Hc. by rewrite Hc.
Qed.

(** X3. A single asterisk in a text without other markup characters is
    kept: [inline_format] reads it neither as bold nor as italic. *)
Theorem inline_format_lone_asterisk (a b : string) :
  markup_free a = true →
  markup_free b = true →
  inline_format (a +:+ "*" +:+ b) = a +:+ "*" +:+ b.
Proof.
  intros Ha Hb. unfold inline_format.
  pose proof (markup_free_star _ Ha) as Ha'.
  pose proof (markup_free_star _ Hb) as Hb'.
  change (a +:+ "*" +:+ b) with (a +:+ String "*" b).
  rewrite (re_sub_skip bold_re bold_repl "*" a _ bold_re_head Ha').
  rewrite (re_sub_head_none bold_re bold_repl "*" b (bold_re_lone b Hb')).
  rewrite (re_sub_untouched bold_re bold_repl "*" b bold_re_head Hb').
  rewrite (re_sub_skip italic_re italic_repl "*" a _ italic_re_head Ha').
  rewrite (re_sub_head_none italic_re italic_repl "*" b (italic_re_lone b Hb')).
  rewrite (re_sub_untouched italic_re italic_repl "*" b italic_re_head Hb').
  apply (re_sub_untouched link_re link_repl "[" _ link_re_head).
  rewrite all_chars_app. simpl.
  by rewrite (markup_free_bracket _ Ha), (markup_free_bracket _ Hb).
Qed.

Lemma inline_format_lone_asterisk_witness :
  inline_format "2 * 3 = 6" = "2 * 3 = 6".
Proof. apply (inline_format_lone_asterisk "2 " " 3 = 6"); reflexivity. Defined.

(** ** The three passes on spans *)

Lemma bold_span pre X tl :
  all_chars (other_than "*") pre = true →
  wordlike X = true →
  re_sub bold_re bold_repl (pre +:+ "**" +:+ X +:+ "**" +:+ tl)
  = pre +:+ "<strong>" +:+ X +:+ "</strong>" +:+ re_sub bold_re bold_repl tl.
Proof.
  intros Hpre HX.
  rewrite (re_sub_skip _ _ "*" pre); [|apply bold_re_head|done].
  rewrite (re_sub_head_match _ _ _ tl {[1 := X]}).
  - change (bold_repl {[1 := X]}) with ("<strong>" +:+ X +:+ "</strong>").
    by rewrite !string_app_assoc.
  - by apply bold_re_match.
  - replace ("**" +:+ X +:+ "**" +:+ tl) with (("**" +:+ X +:+ "**") +:+ tl)
      by (by rewrite !string_app_assoc).
    by apply length_lt_app.
Qed.

Lemma italic_span pre Y tl :
  all_chars (other_than "*") pre = true →
  wordlike Y = true →
  re_sub italic_re italic_repl (pre +:+ "*" +:+ Y +:+ "*" +:+ tl)
  = pre +:+ "<em>" +:+ Y +:+ "</em>" +:+ re_sub italic_re italic_repl tl.
Proof.
  intros Hpre HY.
  rewrite (re_sub_skip _ _ "*" pre); [|apply italic_re_head|done].
  rewrite (re_sub_head_match _ _ _ tl {[1 := Y]}).
  - change (italic_repl {[1 := Y]}) with ("<em>" +:+ Y +:+ "</em>").
    by rewrite !string_app_assoc.
  - by apply italic_re_match.
  - replace ("*" +:+ Y +:+ "*" +:+ tl) with (("*" +:+ Y +:+ "*") +:+ tl)
      by (by rewrite !string_app_assoc).
    by apply length_lt_app.
Qed.

Lemma link_span pre T U tl :
  all_chars (other_than "[") pre = true →
  link_label T = true →
  link_target U = true →
  re_sub link_re link_repl (pre +:+ "[" +:+ T +:+ "](" +:+ U +:+ ")" +:+ tl)
  = pre +:+ "<a href=" +:+ dq +:+ U +:+ dq +:+ ">" +:+ T +:+ "</a>"
    +:+ re_sub link_re link_repl tl.
Proof.
  intros Hpre HT HU.
  rewrite (re_sub_skip _ _ "[" pre); [|apply link_re_head|done].
  rewrite (re_sub_head_match _ _ _ tl (<[2 := U]> {[1 := T]})).
  - change (link_repl (<[2 := U]> {[1 := T]}))
      with ("<a href=" +:+ dq +:+ U +:+ dq +:+ ">" +:+ T +:+ "</a>").
    by rewrite !string_app_assoc.
  - by apply link_re_match.
  - replace ("[" +:+ T +:+ "](" +:+ U +:+ ")" +:+ tl)
      with (("[" +:+ T +:+ "](" +:+ U +:+ ")") +:+ tl)
      by (by rewrite !string_app_assoc).
    by apply length_lt_app.
Qed.

(** A single asterisk before a word is left alone by the bold pass, and so
    is an asterisk before any other character. *)
Lemma bold_single_span pre Y tl :
  all_chars (other_than "*") pre = true →
  wordlike Y = true →
  re_sub bold_re bold_repl (pre +:+ "*" +:+ Y +:+ tl)
  = pre +:+ "*" +:+ Y +:+ re_sub bold_re bold_repl tl.
Proof.
  intros Hpre HY.
  rewrite (re_sub_skip _ _ "*" pre); [|apply bold_re_head|done].
  change ("*" +:+ Y +:+ tl) with (String "*" (Y +:+ tl)).
  rewrite re_sub_head_none by (by apply (bold_re_single Y tl)).
  rewrite (re_sub_skip _ _ "*" Y);
    [|apply bold_re_head|by apply (wordlike_all _ _ word_char_star)].
  reflexivity.
Qed.

Lemma bold_re_one c t :
  c ≠ "*"%char → re_match bold_re (String "*" (String c t)) = None.
Proof.
  intros Hc. unfold re_match, bold_re. cbn [run Str].
  rewrite Ascii.eqb_refl.
  apply Ascii.eqb_neq in Hc. rewrite Ascii.eqb_sym in Hc. by rewrite Hc.
Qed.

Lemma link_label_star T :
  link_label T = true → all_chars (other_than "*") T = true.
Proof.
  apply link_label_all. intros c Hc.
  by apply markup_free_char_star, label_char_free.
Qed.

Lemma link_target_star U :
  link_target U = true → all_chars (other_than "*") U = true.
Proof.
  apply link_target_all. intros c Hc.
  by apply markup_free_char_star, target_char_free.
Qed.

Lemma two_bold_spans X Y :
  wordlike X = true → wordlike Y = true →
  inline_format ("**" +:+ X +:+ "** and **" +:+ Y +:+ "**")
  = "<strong>" +:+ X +:+ "</strong> and <strong>" +:+ Y +:+ "</strong>".
Proof.
  intros HX HY. unfold inline_format.
  pose proof (wordlike_all _ _ word_char_star HX) as HXs.
  pose proof (wordlike_all _ _ word_char_star HY) as HYs.
  pose proof (wordlike_all _ _ word_char_bracket HX) as HXb.
  pose proof (wordlike_all _ _ word_char_bracket HY) as HYb.
  assert (re_sub bold_re bold_repl ("**" +:+ X +:+ "** and **" +:+ Y +:+ "**")
          = "<strong>" +:+ X +:+ "</strong> and <strong>" +:+ Y +:+ "</strong>")
    as ->.
  { change ("**" +:+ X +:+ "** and **" +:+ Y +:+ "**")
      with ("" +:+ "**" +:+ X +:+ "**" +:+ (" and " +:+ "**" +:+ Y +:+ "**" +:+ "")).
    rewrite (bold_span "" X _ eq_refl HX).
    rewrite (bold_span " and " Y "" eq_refl HY).
    rewrite re_sub_nil, ?string_app_nil_l, ?string_app_nil_r.
    rewrite ?string_app_assoc. reflexivity. }
  rewrite (re_sub_untouched italic_re italic_repl "*" _ italic_re_head)
    by (by rewrite !all_chars_app, HXs, HYs).
  apply (re_sub_untouched link_re link_repl "[" _ link_re_head).
  by rewrite !all_chars_app, HXb, HYb.
Qed.

Lemma two_italic_spans X Y :
  wordlike X = true → wordlike Y = true →
  inline_format ("*" +:+ X +:+ "* and *" +:+ Y +:+ "*")
  = "<em>" +:+ X +:+ "</em> and <em>" +:+ Y +:+ "</em>".
Proof.
  intros HX HY. unfold inline_format.
  pose proof (wordlike_all _ _ word_char_star HX) as HXs.
  pose proof (wordlike_all _ _ word_char_star HY) as HYs.
  pose proof (wordlike_all _ _ word_char_bracket HX) as HXb.
  pose proof (wordlike_all _ _ word_char_bracket HY) as HYb.
  assert (re_sub bold_re bold_repl ("*" +:+ X +:+ "* and *" +:+ Y +:+ "*")
          = "*" +:+ X +:+ "* and *" +:+ Y +:+ "*") as ->.
  { change ("*" +:+ X +:+ "* and *" +:+ Y +:+ "*")
      with ("" +:+ "*" +:+ X +:+ ("* and *" +:+ Y +:+ "*")) at 1.
    rewrite (bold_single_span "" X ("* and *" +:+ Y +:+ "*") eq_refl HX).
    change ("* and *" +:+ Y +:+ "*")
      with (String "*" (String " " ("and " +:+ "*" +:+ Y +:+ "*"))) at 1.
    rewrite re_sub_head_none by (by apply bold_re_one).
    change (String " " ("and " +:+ "*" +:+ Y +:+ "*"))
      with (" and " +:+ "*" +:+ Y +:+ "*") at 1.
    rewrite (bold_single_span " and " Y "*" eq_refl HY).
    reflexivity. }
  assert (re_sub italic_re italic_repl ("*" +:+ X +:+ "* and *" +:+ Y +:+ "*")
          = "<em>" +:+ X +:+ "</em> and <em>" +:+ Y +:+ "</em>") as ->.
  { change ("*" +:+ X +:+ "* and *" +:+ Y +:+ "*")
      with ("" +:+ "*" +:+ X +:+ "*" +:+ (" and " +:+ "*" +:+ Y +:+ "*" +:+ "")).
    rewrite (italic_span "" X _ eq_refl HX).
    rewrite (italic_span " and " Y "" eq_refl HY).
    rewrite re_sub_nil, ?string_app_nil_l, ?string_app_nil_r.
    rewrite ?string_app_assoc. reflexivity. }
  apply (re_sub_untouched link_re link_repl "[" _ link_re_head).
  by rewrite !all_chars_app, HXb, HYb.
Qed.

Lemma bold_italic_link X Y T U :
  wordlike X = true → wordlike Y = true →
  link_label T = true → link_target U = true →
  inline_format ("**" +:+ X +:+ "** and *" +:+ Y +:+ "* and ["
                 +:+ T +:+ "](" +:+ U +:+ ")")
  = "<strong>" +:+ X +:+ "</strong> and <em>" +:+ Y +:+ "</em> and <a href="
    +:+ dq +:+ U +:+ dq +:+ ">" +:+ T +:+ "</a>".
Proof.
  intros HX HY HT HU. unfold inline_format.
  pose proof (wordlike_all _ _ word_char_star HX) as HXs.
  pose proof (wordlike_all _ _ word_char_star HY) as HYs.
  pose proof (wordlike_all _ _ word_char_bracket HX) as HXb.
  pose proof (wordlike_all _ _ word_char_bracket HY) as HYb.
  pose proof (link_label_star _ HT) as HTs.
  pose proof (link_target_star _ HU) as HUs.
  assert (all_chars (other_than "*")
            (" and [" +:+ T +:+ "](" +:+ U +:+ ")") = true) as Htl
    by (by rewrite !all_chars_app, HTs, HUs).
  assert (re_sub bold_re bold_repl
            ("**" +:+ X +:+ "** and *" +:+ Y +:+ "* and ["
             +:+ T +:+ "](" +:+ U +:+ ")")
          = "<strong>" +:+ X +:+ "</strong> and *" +:+ Y +:+ "* and ["
            +:+ T +:+ "](" +:+ U +:+ ")") as ->.
  { change ("**" +:+ X +:+ "** and *" +:+ Y +:+ "* and ["
            +:+ T +:+ "](" +:+ U +:+ ")")
      with ("" +:+ "**" +:+ X +:+ "**"
            +:+ (" and " +:+ "*" +:+ Y
                 +:+ ("* and [" +:+ T +:+ "](" +:+ U +:+ ")"))) at 1.
    rewrite (bold_span "" X _ eq_refl HX).
    rewrite (bold_single_span " and " Y
               ("* and [" +:+ T +:+ "](" +:+ U +:+ ")") eq_refl HY).
    change ("* and [" +:+ T +:+ "](" +:+ U +:+ ")")
      with (String "*" (" and [" +:+ T +:+ "](" +:+ U +:+ ")")) at 1.
    rewrite re_sub_head_none by (by apply bold_re_lone).
    rewrite (re_sub_untouched bold_re bold_repl "*" _ bold_re_head Htl).
    rewrite ?string_app_nil_l, ?string_app_assoc. reflexivity. }
  assert (re_sub italic_re italic_repl
            ("<strong>" +:+ X +:+ "</strong> and *" +:+ Y +:+ "* and ["
             +:+ T +:+ "](" +:+ U +:+ ")")
          = "<strong>" +:+ X +:+ "</strong> and <em>" +:+ Y +:+ "</em> and ["
            +:+ T +:+ "](" +:+ U +:+ ")") as ->.
  { replace ("<strong>" +:+ X +:+ "</strong> and *" +:+ Y +:+ "* and ["
             +:+ T +:+ "](" +:+ U +:+ ")")
      with (("<strong>" +:+ X +:+ "</strong> and ") +:+ "*" +:+ Y +:+ "*"
            +:+ " and [" +:+ T +:+ "](" +:+ U +:+ ")")
      by (by rewrite !string_app_assoc).
    rewrite italic_span; [|by rewrite !all_chars_app, HXs|done].
    rewrite (re_sub_untouched italic_re italic_repl "*" _ italic_re_head Htl).
    by rewrite !string_app_assoc. }
  replace ("<strong>" +:+ X +:+ "</strong> and <em>" +:+ Y +:+ "</em> and ["
           +:+ T +:+ "](" +:+ U +:+ ")")
    with (("<strong>" +:+ X +:+ "</strong> and <em>" +:+ Y +:+ "</em> and ")
          +:+ "[" +:+ T +:+ "](" +:+ U +:+ ")" +:+ "")
    by (by rewrite !string_app_assoc, string_app_nil_r).
  rewrite link_span; [|by rewrite !all_chars_app, HXb, HYb|done|done].
  rewrite re_sub_nil. by rewrite !string_app_assoc, string_app_nil_r.
Qed.

(** C9. [inline_format] makes three passes, bold, then italic on the
    result, then links on the result of that, and the two asterisk
    patterns take the shortest span. For words [X] and [Y] without markup,
    a link label [T] and a link target [U]: the first pass turns
    [**X** and *Y*] into strong-wrapped [X] and leaves [*Y*] as it is; the
    three passes give strong-wrapped [X] and emphasis-wrapped [Y], the
    bold markers being gone when the italic pass runs; a bold span alone
    comes out strong-wrapped and nothing of it is taken for italic; two
    bold spans, and two italic spans, in one text come out as two spans,
    each closed at the first closing marker and not at the last; and a
    link after a bold and an italic span comes out as a hyperlink to [U]
    with the text [T]. *)
Theorem inline_format_bold_then_italic (X Y T U : string) :
  wordlike X = true →
  wordlike Y = true →
  link_label T = true →
  link_target U = true →
  re_sub bold_re bold_repl ("**" +:+ X +:+ "** and *" +:+ Y +:+ "*")
  = "<strong>" +:+ X +:+ "</strong> and *" +:+ Y +:+ "*"
  ∧ inline_format ("**" +:+ X +:+ "** and *" +:+ Y +:+ "*")
    = "<strong>" +:+ X +:+ "</strong> and <em>" +:+ Y +:+ "</em>"
  ∧ inline_format ("**" +:+ X +:+ "**") = "<strong>" +:+ X +:+ "</strong>"
  ∧ inline_format ("**" +:+ X +:+ "** and **" +:+ Y +:+ "**")
    = "<strong>" +:+ X +:+ "</strong> and <strong>" +:+ Y +:+ "</strong>"
  ∧ inline_format ("*" +:+ X +:+ "* and *" +:+ Y +:+ "*")
    = "<em>" +:+ X +:+ "</em> and <em>" +:+ Y +:+ "</em>"
  ∧ inline_format ("**" +:+ X +:+ "** and *" +:+ Y +:+ "* and ["
                   +:+ T +:+ "](" +:+ U +:+ ")")
    = "<strong>" +:+ X +:+ "</strong> and <em>" +:+ Y +:+ "</em> and <a href="
      +:+ dq +:+ U +:+ dq +:+ ">" +:+ T +:+ "</a>".
Proof.
  intros HX HY HT HU. split_and!.
  - by apply bold_pass.
  - unfold inline_format. by rewrite bold_pass, italic_pass, link_pass.
  - by apply bold_alone.
  - by apply two_bold_spans.
  - by apply two_italic_spans.
  - by apply bold_italic_link.
Qed.

Lemma inline_format_bold_then_italic_witness :
  inline_format "**bold** and *italic*"
  = "<strong>bold</strong> and <em>italic</em>".
Proof.
  apply (proj1 (proj2 (inline_format_bold_then_italic "bold" "italic"
                         "EOJN" "https://eojn.hr/objave"
                         eq_refl eq_refl eq_refl eq_refl))).
Defined.

(** ** The scanner on blank bodies *)

Lemma lstrip_blank s : all_chars is_space s = true → lstrip s = "".
Proof.
  induction s as [|c s IH]; [done|]. simpl.
  intros [Hc Hs]%andb_true_iff. rewrite Hc. by apply IH.
Qed.

(** X4. A body of white space only (the empty body too) gives the empty
    content, with any fuel: the loop is not entered. *)
Theorem blank_body_gives_nothing (fuel : nat) (body_text folder_name : string) :
  all_chars is_space body_text = true →
  txt_to_html_content fuel body_text folder_name = Some "".
Proof.
  intros Hb. unfold txt_to_html_content, strip.
  rewrite (lstrip_blank _ Hb). cbn [rstrip splitlines splitlines_from].
  rewrite scan_loop_exit; [done|]. simpl. lia.
Qed.

Lemma blank_body_gives_nothing_witness :
  txt_to_html_content 0 (" " +:+ nl +:+ nl +:+ "  ") "vodic" = Some "".
Proof. apply blank_body_gives_nothing. reflexivity. Defined.

(** ** Runs of paragraph lines *)

Lemma run_str {R} p : ∀ s g (k : string → caps → option R),
  run (Str p) s g k =
  if startswith p s then k (drop_chars (String.length p) s) g else None.
Proof.
  induction p as [|a p IH]; intros s g k; [by destruct s|].
  cbn [Str run]. destruct s as [|b s]; [done|].
  cbn [startswith String.length drop_chars].
  destruct (Ascii.eqb a b); [|done]. by rewrite IH.
Qed.






(** ** Lists are closed *)

Lemma differ_by_prefix p x y :
  startswith p x = true → startswith p y = false → x ≠ y.
Proof. intros Hx Hy ->. congruence. Qed.

(** No part a rule appends, apart from the two list parts themselves, is
    equal to one of them. *)
Ltac not_a_list_part :=
  first
    [ apply (differ_by_prefix "         "); reflexivity
    | apply (differ_by_prefix "        <f"); reflexivity
    | apply (differ_by_prefix "        </f"); reflexivity
    | apply (differ_by_prefix "        <h"); reflexivity
    | apply (differ_by_prefix "        <b"); reflexivity
    | apply (differ_by_prefix "        </b"); reflexivity
    | apply (differ_by_prefix "        <p"); reflexivity ].

Lemma figure_parts_no_list folder_name g :
  Forall (λ p, p ≠ ul_open ∧ p ≠ ul_close) (figure_parts folder_name g).
Proof.
  unfold figure_parts. repeat apply Forall_app_2.
  - repeat constructor; not_a_list_part.
  - destruct (is_empty (group 2 g)); repeat constructor; not_a_list_part.
  - repeat constructor; not_a_list_part.
Qed.

Lemma ul_nesting_app l1 : ∀ open l2,
  ul_nesting open (l1 ++ l2)
  = match ul_nesting open l1 with
    | Some open' => ul_nesting open' l2
    | None => None
    end.
Proof.
  induction l1 as [|p l1 IH]; intros open l2; [done|]. cbn [app ul_nesting].
  destruct (String.eqb p ul_open); [by destruct open|].
  destruct (String.eqb p ul_close); [by destruct open|]. apply IH.
Qed.

Lemma ul_nesting_none open l :
  Forall (λ p, p ≠ ul_open ∧ p ≠ ul_close) l → ul_nesting open l = Some open.
Proof.
  induction 1 as [|p l [H1 H2] _ IH]; [done|]. cbn [ul_nesting].
  apply String.eqb_neq in H1, H2. by rewrite H1, H2.
Qed.

Lemma close_list_nested st :
  nested st → ul_nesting false (close_list st) = Some false.
Proof.
  unfold nested, close_list. destruct (in_list st); [|done].
  intros H. by rewrite ul_nesting_app, H.
Qed.

Lemma scan_step_nested lines folder_name st l :
  lines !! cur st = Some l →
  nested st → nested (scan_step lines folder_name st).
Proof.
  intros Hl Hn. pose proof (close_list_nested st Hn) as Hc.
  rewrite (scan_step_rule _ _ _ _ Hl). cbn zeta.
  assert (∀ extra,
            Forall (λ p, p ≠ ul_open ∧ p ≠ ul_close) extra →
            ∀ i, nested (ScanState i false (close_list st ++ extra))) as Hgen.
  { intros extra Hextra i. unfold nested. cbn [html_parts in_list].
    by rewrite ul_nesting_app, Hc, ul_nesting_none. }
  destruct (rule_of (strip l)).
  - rewrite <- (app_nil_r (close_list st)). by apply Hgen.
  - apply Hgen, figure_parts_no_list.
  - apply Hgen. repeat constructor; not_a_list_part.
  - apply Hgen. repeat constructor; not_a_list_part.
  - apply Hgen. repeat constructor; not_a_list_part.
  - unfold nested in *. cbn [html_parts in_list].
    assert (∀ open, ul_nesting open [list_item l] = Some open) as Hitem.
    { intros open. apply ul_nesting_none.
      repeat constructor; not_a_list_part. }
    destruct (in_list st).
    + by rewrite ul_nesting_app, Hn, Hitem.
    + rewrite !ul_nesting_app, Hn.
      change (ul_nesting false ["        <ul>"]) with (Some true). apply Hitem.
  - apply Hgen. repeat constructor; not_a_list_part.
Qed.

Lemma reachable_nested lines folder_name st :
  reachable lines folder_name st → nested st.
Proof.
  induction 1 as [|st Hreach IH Hlen]; [done|].
  destruct (lookup_lt_is_Some_2 lines (cur st) Hlen) as [l Hl].
  by eapply scan_step_nested.
Qed.

Lemma scan_loop_final fuel lines folder_name : ∀ st parts,
  reachable lines folder_name st →
  scan_loop fuel lines folder_name st = Some parts →
  ∃ st', reachable lines folder_name st' ∧ length lines ≤ cur st'
         ∧ parts = close_list st'.
Proof.
  induction fuel as [|fuel IH]; intros st parts Hreach; cbn [scan_loop];
    destruct (cur st <? length lines) eqn:Hlt; try done.
  - intros [= <-]. apply Nat.ltb_ge in Hlt. by exists st.
  - apply IH. constructor; [done|]. by apply Nat.ltb_lt.
  - intros [= <-]. apply Nat.ltb_ge in Hlt. by exists st.
Qed.

(** X7. Whenever [txt_to_html_content] returns, the parts the loop has
    gathered, which the result joins, open and close their lists in turn:
    reading them from the first to the last, a [<ul>] part comes only when
    no list is open, a [</ul>] part only when one is, and none is open at
    the end. *)
Theorem returned_lists_are_closed
    (fuel : nat) (body_text folder_name html : string) :
  txt_to_html_content fuel body_text folder_name = Some html →
  ∃ parts,
    scan_loop fuel (splitlines (strip body_text)) folder_name scan_init
    = Some parts
    ∧ html = join nl parts
    ∧ ul_nesting false parts = Some false.
Proof.
  unfold txt_to_html_content.
  destruct (scan_loop fuel (splitlines (strip body_text)) folder_name scan_init)
    as [parts|] eqn:Hloop; [|done].
  intros [= <-]. exists parts. split_and!; [done..|].
  destruct (scan_loop_final _ _ _ scan_init parts (reachable_init _ _) Hloop)
    as (st & Hreach & _ & ->).
  apply close_list_nested. by eapply reachable_nested.
Qed.

Lemma returned_lists_are_closed_witness :
  ∃ parts,
    scan_loop 4 (splitlines (strip ("- a" +:+ nl +:+ "x" +:+ nl +:+ "- b")))
      "vodic" scan_init = Some parts
    ∧ join nl ["        <ul>"; "          <li>a</li>"; "        </ul>";
               "        <p>x</p>"; "        <ul>"; "          <li>b</li>";
               "        </ul>"] = join nl parts
    ∧ ul_nesting false parts = Some false.
Proof.
  apply (returned_lists_are_closed 4
           ("- a" +:+ nl +:+ "x" +:+ nl +:+ "- b") "vodic").
  vm_compute. reflexivity.
Defined.

(** ** The cursor stays within the lines *)

Lemma quote_run_length ls : length (quote_run ls) ≤ length ls.
Proof.
  induction ls as [|l ls IH]; [done|]. cbn [quote_run].
  destruct (startswith "> " (strip l)); simpl; lia.
Qed.

Lemma para_run_length ls : length (para_run ls) ≤ length ls.
Proof.
  induction ls as [|l ls IH]; [done|]. cbn [para_run].
  destruct (para_break (strip l)); simpl; lia.
Qed.

(** X8. The cursor never leaves the lines: in every state the loop
    reaches it is at most [len(lines)], and an iteration neither moves it
    back nor past the end, so no [lines[i]] is out of range. *)
Theorem cursor_stays_within_lines
    (lines : list string) (folder_name : string) (st : scan_state) :
  reachable lines folder_name st →
  cur st ≤ length lines
  ∧ (cur st < length lines →
     cur st ≤ cur (scan_step lines folder_name st) ≤ length lines).
Proof.
  assert (∀ st l, lines !! cur st = Some l →
            cur st ≤ cur (scan_step lines folder_name st) ≤ length lines)
    as Hstep.
  { intros st0 l Hl. split; [by eapply scan_step_monotone|].
    pose proof (lookup_lt_Some _ _ _ Hl) as Hlt.
    rewrite (scan_step_rule _ _ _ _ Hl). cbn zeta.
    pose proof (quote_run_length (drop (cur st0) lines)) as Hq.
    pose proof (para_run_length (drop (cur st0) lines)) as Hp.
    rewrite length_drop in Hq, Hp.
    destruct (rule_of (strip l)); cbn [cur]; lia. }
  intros Hreach.
  assert (cur st ≤ length lines) as Hle.
  { induction Hreach as [|st Hreach IH Hlen]; [simpl; lia|].
    destruct (lookup_lt_is_Some_2 lines (cur st) Hlen) as [l Hl].
    by apply (Hstep st l). }
  split; [done|]. intros Hlt.
  destruct (lookup_lt_is_Some_2 lines (cur st) Hlt) as [l Hl].
  by apply (Hstep st l).
Qed.

Lemma cursor_stays_within_lines_witness :
  cur (scan_step sample_para_lines "vodic" scan_init) ≤ length sample_para_lines.
Proof.
  apply (cursor_stays_within_lines sample_para_lines "vodic"
           (scan_step sample_para_lines "vodic" scan_init)).
  constructor; [constructor|]. simpl. lia.
Defined.

(** ** The scanner on an unclosed image directive, in general *)

Lemma stuck_line_rule l :
  stuck_line l = true →
  rule_of (strip l) = RPara ∧ para_break (strip l) = true.
Proof.
  unfold stuck_line. intros [Hh Hi]%andb_true_iff.
  apply bool_decide_eq_true in Hh, Hi.
  assert (para_break (strip l) = true) as Hb.
  { unfold para_break. rewrite bool_decide_eq_true_2 by done.
    by rewrite !orb_true_r. }
  split; [|done].
  destruct Hh as [x Hx]. unfold re_match, image_head_re in Hx.
  rewrite run_str in Hx.
  destruct (startswith "[SLIKA:" (strip l)) eqn:Hs; [|done].
  apply startswith_inv in Hs as [t Ht]. unfold rule_of. rewrite Hi, Ht.
  reflexivity.
Qed.

Lemma scan_step_stuck lines folder_name st l :
  lines !! cur st = Some l →
  stuck_line l = true →
  scan_step lines folder_name st
  = ScanState (cur st) false (close_list st ++ ["        <p></p>"]).
Proof.
  intros Hl Hs. destruct (stuck_line_rule _ Hs) as [Hr Hb].
  rewrite (scan_step_rule _ _ _ _ Hl). cbn zeta. rewrite Hr.
  rewrite (drop_S _ _ _ Hl). cbn [para_run]. rewrite Hb.
  cbn [length]. by rewrite Nat.add_0_r.
Qed.

Lemma scan_loop_stuck lines folder_name l fuel : ∀ st,
  lines !! cur st = Some l →
  stuck_line l = true →
  scan_loop fuel lines folder_name st = None.
Proof.
  induction fuel as [|fuel IH]; intros st Hl Hs; cbn [scan_loop];
    rewrite (proj2 (Nat.ltb_lt _ _) (lookup_lt_Some _ _ _ Hl)); [done|].
  rewrite (scan_step_stuck _ _ _ _ Hl Hs). by apply IH.
Qed.

Lemma scan_loop_from_reachable lines folder_name st :
  reachable lines folder_name st →
  (∀ fuel, scan_loop fuel lines folder_name st = None) →
  ∀ fuel, scan_loop fuel lines folder_name scan_init = None.
Proof.
  induction 1 as [|st Hreach IH Hlen]; [done|]. intros Hnone.
  apply IH. intros [|fuel]; cbn [scan_loop];
    rewrite (proj2 (Nat.ltb_lt _ _) Hlen); [done|]. apply Hnone.
Qed.

(** X9. A body with a line that opens an image directive and fails the
    image pattern, at any place, is never converted: the loop reaches the
    first such line and stays on it, whatever the fuel. *)
Theorem scanner_hangs_on_unclosed_image
    (body_text folder_name : string) (l : string) :
  l ∈ splitlines (strip body_text) →
  stuck_line l = true →
  ∀ fuel, txt_to_html_content fuel body_text folder_name = None.
Proof.
  intros Hin Hstuck fuel. unfold txt_to_html_content.
  set (lines := splitlines (strip body_text)) in *.
  assert (∃ j lj, lines !! j = Some lj ∧ stuck_line lj = true
                  ∧ ∀ k lk, k < j → lines !! k = Some lk → stuck_line lk = false)
    as (j & lj & Hj & Hsj & Hfirst).
  { destruct (list_find (λ x, stuck_line x = true) lines) as [[j lj]|] eqn:Hf.
    - apply list_find_Some in Hf as (Hj & Hsj & Hbefore).
      exists j, lj. split_and!; [done..|]. intros k lk Hk Hlk.
      apply not_true_is_false. by eapply Hbefore.
    - apply list_find_None in Hf. rewrite Forall_forall in Hf.
      by destruct (Hf l Hin). }
  destruct (stuck_line_rule _ Hsj) as [_ Hb].
  destruct (cursor_reaches lines folder_name j lj Hj Hb) as (st & Hreach & Hcur).
  { intros Hq. unfold stuck_line in Hsj.
    apply andb_true_iff in Hsj as [Hh _]. apply bool_decide_eq_true in Hh.
    destruct Hh as [x Hx]. unfold re_match, image_head_re in Hx.
    rewrite run_str in Hx.
    destruct (startswith "[SLIKA:" (strip lj)) eqn:Hs; [|done].
    apply startswith_inv in Hs as [t Ht]. unfold is_quote_line in Hq.
    by rewrite Ht in Hq. }
  { done. }
  rewrite (scan_loop_from_reachable lines folder_name st Hreach); [done|].
  intros fuel'. apply (scan_loop_stuck lines folder_name lj).
  - by rewrite Hcur.
  - done.
Qed.

Lemma scanner_hangs_on_unclosed_image_witness :
  txt_to_html_content 1000 sample_stuck_body "vodic" = None.
Proof.
  apply (scanner_hangs_on_unclosed_image sample_stuck_body "vodic"
           "[SLIKA: graf.png | Graf").
  - apply list_elem_of_lookup. by exists 1.
  - reflexivity.
Defined.


(** ** Trimming and upper case *)













(** ** Metadata: the shape of keys and values *)




(** ** Metadata: a header without a colon *)

Lemma no_colon_cons c s :
  contains ":" (String c s) = false ↔ c ≠ ":"%char ∧ contains ":" s = false.
Proof.
  rewrite contains_colon_cons, orb_false_iff, bool_decide_eq_false. done.
Qed.

Lemma no_colon_lstrip s :
  contains ":" s = false → contains ":" (lstrip s) = false.
Proof.
  induction s as [|c s IH]; [done|]. intros H. cbn [lstrip].
  destruct (is_space c); [|done]. apply IH. by apply no_colon_cons in H as [_ ?].
Qed.

Lemma no_colon_rstrip s :
  contains ":" s = false → contains ":" (rstrip s) = false.
Proof.
  induction s as [|c s IH]; [done|]. intros [Hc Hs]%no_colon_cons.
  cbn [rstrip]. destruct (is_space c && is_empty (rstrip s)); [done|].
  apply no_colon_cons. split; [done|]. by apply IH.
Qed.

Lemma no_colon_strip s :
  contains ":" s = false → contains ":" (strip s) = false.
Proof. intros H. by apply no_colon_rstrip, no_colon_lstrip. Qed.

Lemma no_colon_splitlines s : ∀ after_cr,
  contains ":" s = false →
  Forall (λ l, contains ":" l = false) (splitlines_from after_cr s).
Proof.
  induction s as [|c s IH]; intros after_cr; [by constructor|].
  intros [Hc Hs]%no_colon_cons. cbn [splitlines_from].
  destruct (after_cr && Ascii.eqb c LF); [by apply IH|].
  destruct (is_linebreak c).
  - constructor; [done|]. by apply IH.
  - pose proof (IH false Hs) as Hrest.
    destruct (splitlines_from false s) as [|l ls].
    + constructor; [|done]. by apply no_colon_cons.
    + apply Forall_cons in Hrest as [Hl Hls]. constructor; [|done].
      by apply no_colon_cons.
Qed.

Lemma parse_lines_no_colon ls : ∀ m,
  Forall (λ l, contains ":" l = false) ls → foldl parse_line m ls = m.
Proof.
  induction ls as [|l ls IH]; intros m; [done|].
  intros [Hl Hls]%Forall_cons. cbn [foldl].
  unfold parse_line at 2. rewrite (no_colon_strip _ Hl). by apply IH.
Qed.

(** X12. A header without a colon has no metadata. *)
Theorem parse_metadata_without_colon (header_text : string) :
  contains ":" header_text = false → parse_metadata header_text = ∅.
Proof.
  intros H. unfold parse_metadata. apply parse_lines_no_colon.
  unfold splitlines. by apply no_colon_splitlines, no_colon_strip.
Qed.

Lemma parse_metadata_without_colon_witness :
  parse_metadata ("Naslov bez dvotocke" +:+ nl +:+ "jos jedan redak") = ∅.
Proof. apply parse_metadata_without_colon. reflexivity. Defined.

(** ** Dates that cannot be dates *)

(** X13. A date text that, stripped, is empty or starts with a character
    of ASCII other than a digit makes [format_date_hr] raise
    [ValueError]. *)
Theorem format_date_hr_rejects_non_digit (date_str : string) :
  (strip date_str = ""
   ∨ ∃ c t, strip date_str = String c t ∧ is_ascii c = true ∧ digit c = false) →
  format_date_hr date_str = Raised ValueError.
Proof.
  unfold format_date_hr, strptime_ymd.
  intros [->|(c & t & -> & _ & Hc)]; [done|].
  unfold re_match, date_re. cbn [run]. by rewrite Hc.
Qed.

Lemma format_date_hr_rejects_non_digit_witness :
  format_date_hr " veljaca 2026 " = Raised ValueError.
Proof.
  apply format_date_hr_rejects_non_digit. right.
  by exists "v"%char, "eljaca 2026".
Defined.

(** ** The first image of a folder *)

(** X15. [find_first_image] returns the empty string exactly when no name
    has an image suffix; otherwise it returns the first name, in the order
    given, that has one. *)
Theorem find_first_image_first (names : list string) :
  (find_first_image names = "" ↔ Forall (λ f, is_image_name f = false) names)
  ∧ (∀ f, find_first_image names = f → f ≠ "" →
       ∃ before after,
         names = before ++ f :: after
         ∧ is_image_name f = true
         ∧ Forall (λ g, is_image_name g = false) before).
Proof.
  induction names as [|x names [IH1 IH2]].
  - split; [done|]. by intros f <-.
  - cbn [find_first_image]. fold (is_image_name x).
    destruct (is_image_name x) eqn:Hx.
    + split.
      * split.
        -- intros ->. done.
        -- intros [Hx' _]%Forall_cons. congruence.
      * intros f <- _. exists [], names. done.
    + split.
      * rewrite IH1. split.
        -- intros H. by constructor.
        -- by intros [_ ?]%Forall_cons.
      * intros f Hf Hne. destruct (IH2 f Hf Hne) as (b & a & -> & Hi & Hb).
        exists (x :: b), a. split_and!; [done|done|]. by constructor.
Qed.

Lemma find_first_image_first_witness :
  ∃ before after,
    ["biljeske.txt"; ".png"; "graf.PNG"; "slika.jpg"] = before ++ "graf.PNG" :: after
    ∧ is_image_name "graf.PNG" = true
    ∧ Forall (λ g, is_image_name g = false) before.
Proof.
  apply (proj2 (find_first_image_first
                  ["biljeske.txt"; ".png"; "graf.PNG"; "slika.jpg"]) "graf.PNG").
  - vm_compute. reflexivity.
  - done.
Defined.

(** ** Dates that are dates *)

Lemma date_re_parts :
  date_re = Cat (Grp 1 year_re)
             (Cat (Chr "-") (Cat (Grp 2 month_re) (Cat (Chr "-") (Grp 3 day_re)))).
Proof. reflexivity. Qed.

Lemma consumed_1 c s : consumed (String c s) s = String c "".
Proof. apply (consumed_app (String c "") s). Qed.

Lemma consumed_2 c1 c2 s :
  consumed (String c1 (String c2 s)) s = String c1 (String c2 "").
Proof. apply (consumed_app (String c1 (String c2 "")) s). Qed.

Lemma range_bounds a b c :
  range a b c = true →
  nat_of_ascii a ≤ nat_of_ascii c ≤ nat_of_ascii b.
Proof.
  unfold range. intros [H1 H2]%andb_true_iff.
  apply Nat.leb_le in H1, H2. lia.
Qed.

Lemma int_of_digit c :
  48 ≤ nat_of_ascii c ≤ 57 → ∀ acc,
  int_of_digits acc (String c "") = 10 * acc + (nat_of_ascii c - 48).
Proof.
  intros Hc acc. cbn [int_of_digits]. unfold digit.
  rewrite (proj2 (Nat.leb_le _ _) (proj1 Hc)), (proj2 (Nat.leb_le _ _) (proj2 Hc)).
  done.
Qed.

Lemma int_of_two_digits c1 c2 :
  48 ≤ nat_of_ascii c1 ≤ 57 → 48 ≤ nat_of_ascii c2 ≤ 57 →
  int_of_digits 0 (String c1 (String c2 ""))
  = 10 * (nat_of_ascii c1 - 48) + (nat_of_ascii c2 - 48).
Proof.
  intros H1 H2. cbn [int_of_digits]. unfold digit.
  rewrite (proj2 (Nat.leb_le _ _) (proj1 H1)), (proj2 (Nat.leb_le _ _) (proj2 H1)).
  cbn [andb]. fold (digit c2).
  change (if digit c2 then ?a else ?b) with (int_of_digits (10 * 0 + (nat_of_ascii c1 - 48)) (String c2 "")).
  rewrite int_of_digit by done. lia.
Qed.

Section Inversion.
Context {R : Type}.
Implicit Types (k : string → caps → option R).

Lemma run_alt_inv a b s g k x :
  run (Alt a b) s g k = Some x →
  run a s g k = Some x ∨ run b s g k = Some x.
Proof.
  cbn [run]. destruct (run a s g k); [intros [= <-]; by left|by right].
Qed.

Lemma run_chr_inv c s g k x :
  run (Chr c) s g k = Some x → ∃ s', s = String c s' ∧ k s' g = Some x.
Proof.
  cbn [run]. destruct s as [|c' s']; [done|].
  destruct (Ascii.eqb c c') eqn:E; [|done].
  apply Ascii.eqb_eq in E as <-. by exists s'.
Qed.

Lemma run_cls_inv p s g k x :
  run (Cls p) s g k = Some x →
  ∃ c s', s = String c s' ∧ p c = true ∧ k s' g = Some x.
Proof.
  cbn [run]. destruct s as [|c' s']; [done|].
  destruct (p c') eqn:E; [|done]. by exists c', s'.
Qed.

Lemma run_cat_chr_inv c b s g k x :
  run (Cat (Chr c) b) s g k = Some x →
  ∃ s', s = String c s' ∧ run b s' g k = Some x.
Proof. apply run_chr_inv. Qed.

Lemma run_cat_cls_inv p b s g k x :
  run (Cat (Cls p) b) s g k = Some x →
  ∃ c s', s = String c s' ∧ p c = true ∧ run b s' g k = Some x.
Proof. apply run_cls_inv. Qed.

Lemma run_grp n r s g k :
  run (Grp n r) s g k
  = run r s g (λ s' g', k s' (<[n := consumed s s']> g')).
Proof. reflexivity. Qed.
End Inversion.

Ltac ascii_bounds :=
  repeat match goal with
  | H : range _ _ _ = true |- _ => apply range_bounds in H
  | H : digit _ = true |- _ => apply (range_bounds "0" "9") in H
  end;
  change (nat_of_ascii "0") with 48 in *;
  change (nat_of_ascii "1") with 49 in *;
  change (nat_of_ascii "2") with 50 in *;
  change (nat_of_ascii "3") with 51 in *;
  change (nat_of_ascii "9") with 57 in *.

Ltac two_chars H :=
  first
    [ apply run_cat_chr_inv in H as (? & -> & H)
    | apply run_cat_cls_inv in H as (? & ? & -> & ? & H) ];
  first
    [ apply run_chr_inv in H as (? & -> & H)
    | apply run_cls_inv in H as (? & ? & -> & ? & H) ];
  rewrite consumed_2 in H.

Ltac one_char H :=
  apply run_cls_inv in H as (? & ? & -> & ? & H);
  rewrite consumed_1 in H.

Lemma month_re_inv {R} s g (k : string → caps → option R) x :
  run (Grp 2 month_re) s g k = Some x →
  ∃ ms s', month_text ms ∧ k s' (<[2 := ms]> g) = Some x.
Proof.
  rewrite run_grp. unfold month_re, month_text. intros H.
  apply run_alt_inv in H as [H|H]; [|apply run_alt_inv in H as [H|H]].
  - two_chars H. eexists _, _. split; [|exact H]. ascii_bounds.
    rewrite int_of_two_digits; change (nat_of_ascii "1") with 49; lia.
  - two_chars H. eexists _, _. split; [|exact H]. ascii_bounds.
    rewrite int_of_two_digits; change (nat_of_ascii "0") with 48; lia.
  - one_char H. eexists _, _. split; [|exact H]. ascii_bounds.
    rewrite int_of_digit; lia.
Qed.

Lemma int_of_blank_digit c :
  48 ≤ nat_of_ascii c ≤ 57 →
  int_of_digits 0 (String " " (String c "")) = nat_of_ascii c - 48.
Proof.
  intros Hc. change (int_of_digits 0 (String " " (String c "")))
    with (int_of_digits 0 (String c "")).
  rewrite int_of_digit by done. lia.
Qed.

Lemma day_re_inv {R} s g (k : string → caps → option R) x :
  run (Grp 3 day_re) s g k = Some x →
  ∃ ds s', day_text ds ∧ k s' (<[3 := ds]> g) = Some x.
Proof.
  rewrite run_grp. unfold day_re, day_text. intros H.
  apply run_alt_inv in H as [H|H]; [|apply run_alt_inv in H as [H|H];
    [|apply run_alt_inv in H as [H|H]; [|apply run_alt_inv in H as [H|H]]]].
  - two_chars H. eexists _, _. split; [|exact H]. ascii_bounds.
    rewrite int_of_two_digits; change (nat_of_ascii "3") with 51; lia.
  - two_chars H. eexists _, _. split; [|exact H]. ascii_bounds.
    rewrite int_of_two_digits; lia.
  - two_chars H. eexists _, _. split; [|exact H]. ascii_bounds.
    rewrite int_of_two_digits; change (nat_of_ascii "0") with 48; lia.
  - one_char H. eexists _, _. split; [|exact H]. ascii_bounds.
    rewrite int_of_digit; lia.
  - two_chars H. eexists _, _. split; [|exact H]. ascii_bounds.
    rewrite int_of_blank_digit; lia.
Qed.

Lemma year_re_inv {R} s g (k : string → caps → option R) x :
  run (Grp 1 year_re) s g k = Some x →
  ∃ ys s', k s' (<[1 := ys]> g) = Some x.
Proof.
  rewrite run_grp. unfold year_re. intros H.
  apply run_cat_cls_inv in H as (? & ? & -> & _ & H).
  apply run_cat_cls_inv in H as (? & ? & -> & _ & H).
  apply run_cat_cls_inv in H as (? & ? & -> & _ & H).
  apply run_cls_inv in H as (? & ? & -> & _ & H).
  eexists _, _. exact H.
Qed.

Lemma date_re_groups s rest g :
  re_match date_re s = Some (rest, g) →
  month_text (group 2 g) ∧ day_text (group 3 g).
Proof.
  unfold re_match. rewrite date_re_parts. intros H.
  change (run (Cat ?a ?b) ?s ?g ?k)
    with (run a s g (λ s' g', run b s' g' k)) in H.
  apply year_re_inv in H as (ys & s1 & H).
  apply run_cat_chr_inv in H as (s2 & -> & H).
  change (run (Cat ?a ?b) ?s ?g ?k)
    with (run a s g (λ s' g', run b s' g' k)) in H.
  apply month_re_inv in H as (ms & s3 & Hms & H).
  apply run_cat_chr_inv in H as (s4 & -> & H).
  apply day_re_inv in H as (ds & s5 & Hds & H).
  injection H as <- <-. unfold group.
  rewrite lookup_insert_ne, lookup_insert_eq by done.
  rewrite lookup_insert_eq. done.
Qed.

(** X14. The date line of a page always names a day of the calendar: when
    [format_date_hr] returns, its text is [day. month year.] with the month
    taken from [MONTHS_HR] (the index [month - 1] is always inside the
    table), a day between 1 and the length of that month, and a year from
    1 on, none of them zero-padded. *)
Theorem format_date_hr_names_calendar_day (date_str r : string) :
  format_date_hr date_str = Done r →
  ∃ (year month day : nat) (name : string),
    MONTHS_HR !! (month - 1) = Some name ∧
    1 ≤ month ≤ 12 ∧ 1 ≤ day ≤ days_in_month year month ∧ 1 ≤ year ∧
    r = pretty day +:+ ". " +:+ name +:+ " " +:+ pretty year +:+ ".".
Proof.
  unfold format_date_hr, strptime_ymd.
  destruct (re_match date_re (strip date_str)) as [[rest g]|] eqn:Hm; [|done].
  apply date_re_groups in Hm as [Hmonth Hday].
  unfold month_text in Hmonth. unfold day_text in Hday.
  destruct (is_empty rest); [|done]. cbv zeta.
  destruct ((1 <=? int_of_digits 0 (group 1 g))
            && (int_of_digits 0 (group 3 g)
                <=? days_in_month (int_of_digits 0 (group 1 g))
                      (int_of_digits 0 (group 2 g)))) eqn:Hok; [|done].
  apply andb_true_iff in Hok as [Hy Hd].
  apply Nat.leb_le in Hy, Hd.
  destruct (lookup_lt_is_Some_2 MONTHS_HR (int_of_digits 0 (group 2 g) - 1))
    as [name Hname]; [cbn; lia|].
  cbn [bind]. rewrite Hname. cbn [default]. intros [= <-].
  exists (int_of_digits 0 (group 1 g)), (int_of_digits 0 (group 2 g)),
    (int_of_digits 0 (group 3 g)), name.
  repeat split; try done; lia.
Qed.

Lemma format_date_hr_names_calendar_day_witness :
  format_date_hr " 2024-02-29 " = Done "29. veljače 2024." ∧
  ∃ (year month day : nat) (name : string),
    MONTHS_HR !! (month - 1) = Some name ∧
    1 ≤ month ≤ 12 ∧ 1 ≤ day ≤ days_in_month year month ∧ 1 ≤ year ∧
    "29. veljače 2024."
    = pretty day +:+ ". " +:+ name +:+ " " +:+ pretty year +:+ ".".
Proof.
  split; [vm_compute; reflexivity|].
  apply (format_date_hr_names_calendar_day " 2024-02-29 ").
  vm_compute; reflexivity.
Defined.

(** ** Entries the folder loop passes over *)

(** X16. Entries that are not visited (not a directory, a name that starts
    with [_] or [.], the name [img], or no [sadrzaj.txt]) do not change the
    run: the folder loop gives the same result, output included, without
    them. *)
Theorem scan_skips_unvisited
    (fuel : nat) (items : list dir_entry) (st : build_state) :
  scan_folders fuel items st
  = scan_folders fuel (filter (λ item, visited item = true) items) st.
Proof.
  revert st. induction items as [|item items IH]; intros st; [done|].
  rewrite filter_cons. destruct (decide (visited item = true)) as [Hv|Hv].
  - cbn [scan_folders]. destruct (build_folder fuel item st); simpl; [|done..].
    apply IH.
  - apply not_true_is_false in Hv. cbn [scan_folders].
    rewrite (build_folder_not_visited _ _ _ Hv). simpl. apply IH.
Qed.

(** ** Files and records go together *)

Lemma generate_html_slug meta content_html folder_name html :
  generate_html meta content_html folder_name = Done html →
  pg_slug html = folder_name ∧ pg_content_html html = content_html.
Proof.
  unfold generate_html. destruct (format_date_hr _); simpl; [|done..].
  by intros [= <-].
Qed.

Lemma build_folder_appends fuel item st st' :
  build_folder fuel item st = Done st' →
  (posts st' = posts st ∧ written st' = written st)
  ∨ (visited item = true
     ∧ ∃ p html,
         posts st' = posts st ++ [p]
         ∧ written st' = written st ++ [(file_of item, html)]
         ∧ p_file p = Some (file_of item)
         ∧ pg_slug html = name item).
Proof.
  destruct (visited item) eqn:Hv.
  - apply visited_true in Hv as (Hd & Hn & [raw Hraw]).
    unfold build_folder. rewrite Hd, Hn, Hraw. cbn [negb].
    destruct (contains "---" raw); [|intros [= <-]; by left].
    destruct (split_once "---" raw) as [[h b]|]; [|intros [= <-]; by left].
    destruct (is_empty _); [intros [= <-]; by left|].
    destruct (txt_to_html_content _ _ _) as [content|]; [|done].
    destruct (generate_html _ _ _) as [html| |] eqn:Hg; simpl; [|done..].
    intros [= <-]. right. split; [done|].
    apply generate_html_slug in Hg as [Hslug _].
    eexists _, html. cbn [posts written]. done.
  - rewrite build_folder_not_visited by done. intros [= <-]. by left.
Qed.

Lemma scan_folders_appends fuel items : ∀ st st',
  scan_folders fuel items st = Done st' →
  ∃ new_posts new_files,
    posts st' = posts st ++ new_posts
    ∧ written st' = written st ++ new_files
    ∧ p_file <$> new_posts = Some <$> new_files.*1
    ∧ new_files.*1 `sublist_of`
        (file_of <$> filter (λ item, visited item = true) items)
    ∧ Forall (λ fp, fp.1 = pg_slug fp.2 +:+ ".html") new_files.
Proof.
  induction items as [|item items IH]; intros st st'; cbn [scan_folders].
  - intros [= <-]. exists [], []. by rewrite !app_nil_r.
  - destruct (build_folder fuel item st) as [st1| |] eqn:Hb; simpl; [|done..].
    intros Hrest.
    destruct (IH _ _ Hrest) as (np & nf & Hp & Hw & Hpf & Hsub & Hall).
    rewrite filter_cons.
    destruct (build_folder_appends _ _ _ _ Hb)
      as [[Hp1 Hw1]|(Hv & p & html & Hp1 & Hw1 & Hfile & Hslug)].
    + exists np, nf. rewrite Hp, Hw, Hp1, Hw1. split_and!; try done.
      destruct (decide (visited item = true)); [|done].
      by apply sublist_cons.
    + exists (p :: np), ((file_of item, html) :: nf).
      rewrite Hp, Hw, Hp1, Hw1, <- !app_assoc. split_and!; try done.
      * rewrite !fmap_cons. by rewrite Hfile, Hpf.
      * rewrite decide_True by done. rewrite !fmap_cons. by apply sublist_skip.
      * constructor; [|done]. simpl. by rewrite Hslug.
Qed.

(** X17. When the folder loop completes, files and records go together:
    the [file] fields of the records are, in order, the names of the files
    written; these names come, in order, from visited folders; and each
    file is named after the slug of the page it holds. *)
Theorem generated_files_match_records
    (fuel : nat) (blog_dir : list dir_entry) (st : build_state) :
  scan_folders fuel blog_dir build_init = Done st →
  p_file <$> posts st = Some <$> (written st).*1
  ∧ (written st).*1 `sublist_of`
      (file_of <$> filter (λ item, visited item = true) blog_dir)
  ∧ Forall (λ fp, fp.1 = pg_slug fp.2 +:+ ".html") (written st).
Proof.
  intros Hscan.
  destruct (scan_folders_appends _ _ _ _ Hscan)
    as (np & nf & Hp & Hw & Hpf & Hsub & Hall).
  simpl in Hp, Hw. by rewrite Hp, Hw.
Qed.

Lemma generated_files_match_records_witness :
  ∃ st,
    scan_folders 1 [broken_folder; good_folder] build_init = Done st
    ∧ p_file <$> posts st = Some <$> (written st).*1.
Proof.
  assert (∃ st, scan_folders 1 [broken_folder; good_folder] build_init = Done st)
    as [st Hst] by (eexists; vm_compute; reflexivity).
  exists st. split; [exact Hst|].
  exact (proj1 (generated_files_match_records 1 _ st Hst)).
Defined.

(** ** When the run completes *)




(** ** A second run *)

Lemma second_run_same_for_plain_names_witness :
  ∃ r,
    build_blog 1 [broken_folder; good_folder] (Parsed [legacy_record]) = Done r
    ∧ build_blog 1 [broken_folder; good_folder] (Parsed (catalog r)) = Done r.
Proof.
  assert (∃ r, build_blog 1 [broken_folder; good_folder] (Parsed [legacy_record])
               = Done r) as [r Hr] by (eexists; vm_compute; reflexivity).
  exists r. split; [exact Hr|].
  apply (second_run_same_for_plain_names 1 _ (Parsed [legacy_record]) r);
    [|exact Hr].
  intros item Hin _.
  repeat (apply elem_of_cons in Hin as [->|Hin]); try reflexivity.
  by apply elem_of_nil in Hin.
Defined.
